(** * A console-interception logger over IndexedDB

    Shallow embedding of the capture-and-persistence core of the repository:

    - [services/indexedDB] : the singleton connection ([dbInstance],
      [initPromise], [initDB], [getDB]) and the three store operations
      ([addLogEntry], [getAllLogs], [clearAllLogs]);
    - [services/logger] : [notifyListeners], [saveLog], the [Logger] object
      ([subscribe], [clear], [internalError]) and [initGlobalLogger];
    - the field normalisation of [logError] in the React provider.

    JavaScript's asynchrony is made explicit.  Every [async] function is cut
    at its [await]: the synchronous prefix is a state transformer that parks a
    task in [pending]; the rest of the function is the code that runs when the
    environment completes that task.  The browser (IndexedDB engine, clock,
    event loop) is the environment: it chooses which parked task completes
    next and whether its request succeeds or fails, and whether a
    transaction whose request succeeded commits. *)

From Stdlib Require Import ZArith List String Bool Lia Permutation Sorted.
From Stdlib Require Import DecimalString.
Import ListNotations.

Local Open Scope Z_scope.

(** ** JavaScript values *)

Module JS.

(** The fragment of JavaScript values that reaches the logger: primitives,
    [Error] instances, plain objects and arrays.  Numbers are [NaN] and the
    integers of magnitude below 10^21, the ones that print in decimal
    digits.  Objects are plain data, converted to a string by the inherited
    [Object.prototype.toString]: an object with a property [toString] or
    [valueOf] of its own is outside the fragment, and so is a function. *)
#[local] Set Warnings "-register-all".
Inductive Value : Type :=
| VUndefined
| VNull
| VBool (b : bool)
| VNum (n : Z)
| VNaN
| VStr (s : string)
| VError (name message : string) (stack : option string)
| VObject (fields : list (string * Value))
| VArray (items : list Value).

(** [x instanceof Error] *)
Definition instanceofError (v : Value) : bool :=
  match v with VError _ _ _ => true | _ => false end.

(** The condition of [x ? a : b]. *)
Definition ToBoolean (v : Value) : bool :=
  match v with
  | VUndefined | VNull | VNaN => false
  | VBool b => b
  | VNum n => negb (n =? 0)
  | VStr s => negb (String.eqb s EmptyString)
  | VError _ _ _ | VObject _ | VArray _ => true
  end.

(** Decimal digits, as JavaScript prints integers of magnitude below
    10^21. *)
Definition NumberToString (n : Z) : string :=
  NilZero.string_of_int (Z.to_int n).

(** [Error.prototype.toString] *)
Definition ErrorToString (name message : string) : string :=
  if String.eqb name EmptyString then message
  else if String.eqb message EmptyString then name
  else (name ++ ": " ++ message)%string.

(** [String(v)] *)
Fixpoint ToString (v : Value) : string :=
  match v with
  | VUndefined => "undefined"
  | VNull => "null"
  | VBool true => "true"
  | VBool false => "false"
  | VNum n => NumberToString n
  | VNaN => "NaN"
  | VStr s => s
  | VError name message _ => ErrorToString name message
  | VObject _ => "[object Object]"
  | VArray items =>
      (fix join (l : list Value) : string :=
         match l with
         | [] => EmptyString
         | x :: r =>
             let sx := match x with
                       | VUndefined | VNull => EmptyString
                       | _ => ToString x
                       end in
             match r with
             | [] => sx
             | _ => (sx ++ "," ++ join r)%string
             end
         end) items
  end%string.

(** The error names that a structured clone keeps; any other becomes
    "Error". *)
Definition cloned_name (name : string) : string :=
  if existsb (String.eqb name)
       ["Error"; "EvalError"; "RangeError"; "ReferenceError"; "SyntaxError";
        "TypeError"; "URIError"]%string
  then name else "Error"%string.

(** The structured clone of a value, which is what a store keeps and a
    cursor returns: primitives as they are, objects and arrays member by
    member, an [Error] with its message and stack and its name reduced to a
    standard one. *)
Fixpoint clone (v : Value) : Value :=
  match v with
  | VError name message stack => VError (cloned_name name) message stack
  | VObject fields =>
      VObject ((fix members (l : list (string * Value)) : list (string * Value) :=
                  match l with
                  | [] => []
                  | (k, x) :: r => (k, clone x) :: members r
                  end) fields)
  | VArray items =>
      VArray ((fix elements (l : list Value) : list Value :=
                 match l with
                 | [] => []
                 | x :: r => clone x :: elements r
                 end) items)
  | VUndefined | VNull | VBool _ | VNum _ | VNaN | VStr _ => v
  end.

(** [args[0]] *)
Definition first (args : list Value) : Value := nth 0 args VUndefined.

(** [args.length > 1 ? args.slice(1) : undefined] *)
Definition rest (args : list Value) : option Value :=
  match args with
  | _ :: (_ :: _) as tl => Some (VArray tl)
  | _ => None
  end.

End JS.

Import JS.

(** ** types.ts *)

Inductive LogLevel : Type := INFO | WARN | ERROR.

(** [Omit<LogEntry, 'id'>]: what producers hand to the store. *)
Record LogDraft : Type := mkDraft {
  d_timestamp : Z;
  d_level : LogLevel;
  d_message : string;
  d_stackTrace : option string;
  d_metadata : option Value
}.

(** [LogEntry] as read back from the store: the key path [id] is filled in. *)
Record LogEntry : Type := mkEntry {
  id : Z;
  timestamp : Z;
  level : LogLevel;
  message : string;
  stackTrace : option string;
  metadata : option Value
}.

Definition with_id (k : Z) (d : LogDraft) : LogEntry :=
  {| id := k;
     timestamp := d_timestamp d;
     level := d_level d;
     message := d_message d;
     stackTrace := d_stackTrace d;
     metadata := d_metadata d |}.

(** The structured clone of an entry handed to [store.add]: only the
    metadata can hold anything but a string or a number. *)
Definition clone_draft (d : LogDraft) : LogDraft :=
  {| d_timestamp := d_timestamp d;
     d_level := d_level d;
     d_message := d_message d;
     d_stackTrace := d_stackTrace d;
     d_metadata := option_map clone (d_metadata d) |}.

(** ** The IndexedDB engine

    The object store created by [onupgradeneeded]:
    [createObjectStore('logs', { keyPath: 'id', autoIncrement: true })] with
    the index [timestamp].  [rows] are the stored records with their primary
    key, [keygen] is the current number of the store's key generator.  A
    database that was never created is the empty store whose generator reads
    1, which is what [createObjectStore] produces, so the conditional
    creation in [onupgradeneeded] leaves this representation unchanged.

    The engine is the browser's, not the repository's: the definitions below
    follow the IndexedDB standard.  The outcome of a request is chosen by
    the environment; that a transaction whose request succeeded can still
    fail to commit is an event of the loop below ([EvRunReverted]). *)

Module IDB.

Record ObjectStore : Type := mkStore {
  rows : list (Z * LogDraft);
  keygen : Z
}.

Definition empty : ObjectStore := {| rows := []; keygen := 1 |}.

(** The key generator stops at 2^53. *)
Definition max_key : Z := 2 ^ 53.

Definition ConstraintError : Value :=
  VError "ConstraintError" "Key generator exhausted" None.

(** Outcome of one request, chosen by the environment. *)
Inductive Outcome : Type :=
| Commit
| Abort (error : Value).

(** What a promise settles to. *)
Inductive Settled (A : Type) : Type :=
| Resolve (a : A)
| Reject (reason : Value).
Arguments Resolve {A} a.
Arguments Reject {A} reason.

(** [store.add(entry)] for an entry without [id]: the generator supplies the
    key and advances, and the store keeps a structured clone of the entry. *)
Definition add (d : LogDraft) (o : Outcome) (db : ObjectStore)
  : ObjectStore * Settled Z :=
  match o with
  | Abort e => (db, Reject e)
  | Commit =>
      if keygen db >? max_key then (db, Reject ConstraintError)
      else ({| rows := rows db ++ [(keygen db, clone_draft d)];
               keygen := keygen db + 1 |},
            Resolve (keygen db))
  end.

(** [store.clear()]: the records go, the generator keeps its number. *)
Definition clear (o : Outcome) (db : ObjectStore) : ObjectStore * Settled unit :=
  match o with
  | Abort e => (db, Reject e)
  | Commit => ({| rows := []; keygen := keygen db |}, Resolve tt)
  end.

(** Order of the records of the index [timestamp]: by index key, then by
    primary key. *)
Definition index_le (a b : Z * LogDraft) : bool :=
  (d_timestamp (snd a) <? d_timestamp (snd b))
  || ((d_timestamp (snd a) =? d_timestamp (snd b)) && (fst a <=? fst b)).

Fixpoint index_insert (x : Z * LogDraft) (l : list (Z * LogDraft))
  : list (Z * LogDraft) :=
  match l with
  | [] => [x]
  | y :: r => if index_le x y then x :: l else y :: index_insert x r
  end.

Definition index_records (db : ObjectStore) : list (Z * LogDraft) :=
  fold_right index_insert [] (rows db).

(** [index.openCursor(null, 'prev')] followed to its end: the index records
    from last to first, each yielding its value with the key in [id]. *)
Definition cursor_prev (db : ObjectStore) : list LogEntry :=
  map (fun r => with_id (fst r) (snd r)) (rev (index_records db)).

Definition scan (o : Outcome) (db : ObjectStore) : Settled (list LogEntry) :=
  match o with
  | Abort e => Reject e
  | Commit => Resolve (cursor_prev db)
  end.

End IDB.

Import IDB.

(** ** Module state and the event loop *)

(** An observer callback, identified as a function object is: by identity.
    What a callback does is the observer's business; calling it is an
    observation, it returns normally, and whatever it asks of the logger is
    an event of its own. *)
Definition Listener : Type := nat.
Bind Scope nat_scope with Listener.

Inductive Chan : Type := ChLog | ChWarn | ChError | ChInfo.

(** A function stored in a slot of [console]: the browser's own, or a
    wrapper built by [initGlobalLogger] around whatever the slot held. *)
Inductive ConsoleFn : Type :=
| Native (c : Chan)
| LogInterceptor (original : ConsoleFn)
| WarnInterceptor (original : ConsoleFn)
| ErrorInterceptor (original : ConsoleFn).

Record Console : Type := mkConsole {
  c_log : ConsoleFn;
  c_warn : ConsoleFn;
  c_error : ConsoleFn;
  _originalLog : option ConsoleFn;
  _originalError : option ConsoleFn
}.

Definition native_console : Console :=
  {| c_log := Native ChLog;
     c_warn := Native ChWarn;
     c_error := Native ChError;
     _originalLog := None;
     _originalError := None |}.

Inductive PromiseState : Type :=
| Pending
| Fulfilled
| Rejected (reason : Value).

(** What [initDB] hands back: a fresh [Promise.resolve()], or the object
    held in the module variable [initPromise]. *)
Inductive InitRet : Type :=
| RetResolved
| RetInitPromise.

Inductive Op : Type :=
| OpAdd (entry : LogDraft)
| OpGetAll
| OpClear.

(** An [async] function suspended at [await getDB()], with what it does
    afterwards. *)
Inductive Task : Type :=
| TsaveLog (entry : LogDraft)
| TnotifyListeners
| Tsubscribe (listener : Listener)
| Tclear
| Tcaller (caller : nat) (op : Op).

(** Why a listener is called: by the [then] of its own [subscribe], or by
    the [forEach] of [notifyListeners]. *)
Inductive Source : Type := Initial | Notification.

Inductive Answer : Type :=
| AId (k : Z)
| ALogs (logs : list LogEntry)
| AVoid
| AError (e : Value).

(** What the outside can see. *)
Inductive Obs : Type :=
| Output (c : Chan) (args : list Value)
| Invoke (src : Source) (l : Listener) (logs : list LogEntry)
| AddResolved (k : Z)
| Answered (caller : nat) (a : Answer)
| Unhandled (e : Value).

(** [now] is what [Date.now()] reads, [idb] the database on disk, [opens]
    the number of calls of [indexedDB.open] so far; [dbInstance] tells
    whether the module variable holds a connection, [initPromise] is the
    module variable of that name, [listeners] the [Set] in insertion order,
    [console] the global object's slots; [pending] are the suspended
    [async] calls and [trace] the observations so far, oldest first. *)
Record State : Type := mkState {
  now : Z;
  idb : ObjectStore;
  opens : nat;
  dbInstance : bool;
  initPromise : option PromiseState;
  listeners : list Listener;
  console : Console;
  pending : list Task;
  trace : list Obs
}.

(** A freshly loaded page: module variables at their initialisers, the
    database as an earlier session left it. *)
Definition fresh (db : ObjectStore) (t : Z) : State :=
  {| now := t; idb := db; opens := 0; dbInstance := false;
     initPromise := None; listeners := []; console := native_console;
     pending := []; trace := [] |}.

Definition set_now (t : Z) (s : State) : State :=
  mkState t (idb s) (opens s) (dbInstance s) (initPromise s)
          (listeners s) (console s) (pending s) (trace s).
Definition set_idb (db : ObjectStore) (s : State) : State :=
  mkState (now s) db (opens s) (dbInstance s) (initPromise s)
          (listeners s) (console s) (pending s) (trace s).
Definition set_init (b : bool) (p : option PromiseState) (n : nat) (s : State)
  : State :=
  mkState (now s) (idb s) n b p (listeners s) (console s) (pending s) (trace s).
Definition set_listeners (ls : list Listener) (s : State) : State :=
  mkState (now s) (idb s) (opens s) (dbInstance s) (initPromise s)
          ls (console s) (pending s) (trace s).
Definition set_console (c : Console) (s : State) : State :=
  mkState (now s) (idb s) (opens s) (dbInstance s) (initPromise s)
          (listeners s) c (pending s) (trace s).
Definition set_pending (q : list Task) (s : State) : State :=
  mkState (now s) (idb s) (opens s) (dbInstance s) (initPromise s)
          (listeners s) (console s) q (trace s).
Definition emit (o : Obs) (s : State) : State :=
  mkState (now s) (idb s) (opens s) (dbInstance s) (initPromise s)
          (listeners s) (console s) (pending s) (trace s ++ [o]).

(** ** services/indexedDB *)

(** [initDB]: the result and the state it leaves.  [opens] counts the calls
    of [indexedDB.open]. *)
Definition initDB (s : State) : InitRet * State :=
  if dbInstance s then (RetResolved, s)
  else match initPromise s with
       | Some _ => (RetInitPromise, s)
       | None => (RetInitPromise, set_init false (Some Pending) (S (opens s)) s)
       end.

(** [request.onsuccess] of the open request. *)
Definition open_onsuccess (s : State) : State :=
  match initPromise s with
  | Some Pending => set_init true (Some Fulfilled) (opens s) s
  | _ => s
  end.

Definition open_failure : Value := VStr "Failed to open database".

(** [getDB] up to its [await]. *)
Definition getDB_call (s : State) : State :=
  if dbInstance s then s else snd (initDB s).

(** [getDB] from its [await] on: [None] while [initPromise] is pending. *)
Definition getDB_resume (s : State) : option (Settled unit) :=
  if dbInstance s then Some (Resolve tt)
  else match initPromise s with
       | Some Pending | None => None
       | Some Fulfilled =>
           Some (Reject (VError "Error" "Database not initialized" None))
       | Some (Rejected r) => Some (Reject r)
       end.

(** A caller of [addLogEntry], [getAllLogs] or [clearAllLogs] runs [getDB]
    up to the [await] and is parked. *)
Definition park (t : Task) (s : State) : State :=
  let s1 := getDB_call s in set_pending (pending s1 ++ [t]) s1.

(** The three operations from [await getDB()] on; [g] is what [getDB] gave,
    [o] the outcome of the request. *)
Definition addLogEntry (entry : LogDraft) (g : Settled unit) (o : Outcome)
  (s : State) : State * Settled Z :=
  match g with
  | Reject e => (s, Reject e)
  | Resolve _ =>
      match IDB.add entry o (idb s) with
      | (db, Resolve k) => (emit (AddResolved k) (set_idb db s), Resolve k)
      | (db, Reject e) => (set_idb db s, Reject e)
      end
  end.

Definition getAllLogs (g : Settled unit) (o : Outcome) (s : State)
  : State * Settled (list LogEntry) :=
  match g with
  | Reject e => (s, Reject e)
  | Resolve _ => (s, IDB.scan o (idb s))
  end.

Definition clearAllLogs (g : Settled unit) (o : Outcome) (s : State)
  : State * Settled unit :=
  match g with
  | Reject e => (s, Reject e)
  | Resolve _ =>
      let (db, r) := IDB.clear o (idb s) in (set_idb db s, r)
  end.

(** ** services/logger *)

Definition set_add (l : Listener) (ls : list Listener) : list Listener :=
  if existsb (Nat.eqb l) ls then ls else ls ++ [l].

Definition set_delete (l : Listener) (ls : list Listener) : list Listener :=
  filter (fun x => negb (Nat.eqb l x)) ls.

(** [notifyListeners] up to [await getAllLogs()]. *)
Definition notifyListeners (s : State) : State := park TnotifyListeners s.

(** [saveLog] up to [await addLogEntry(...)]: the entry is built, and
    stamped, at the call. *)
Definition saveLog (lv : LogLevel) (msg : string) (stack : option string)
  (meta : option Value) (s : State) : State :=
  park (TsaveLog {| d_timestamp := now s; d_level := lv; d_message := msg;
                    d_stackTrace := stack; d_metadata := meta |}) s.

(** The arguments an interceptor passes to [saveLog]. *)
Definition plain_message (args : list Value) : string :=
  if ToBoolean (first args) then ToString (first args) else EmptyString.

Definition error_message (args : list Value) : string :=
  match first args with
  | VError _ m _ => m
  | v => ToString v
  end.

Definition error_stack (args : list Value) : option string :=
  match first args with
  | VError _ _ st => st
  | _ => None
  end.

(** Calling a function held in a [console] slot. *)
Fixpoint call (f : ConsoleFn) (args : list Value) (s : State) : State :=
  match f with
  | Native c => emit (Output c args) s
  | LogInterceptor original =>
      saveLog INFO (plain_message args) None (rest args)
              (call original args s)
  | WarnInterceptor original =>
      saveLog WARN (plain_message args) None (rest args)
              (call original args s)
  | ErrorInterceptor original =>
      saveLog ERROR (error_message args) (error_stack args) (rest args)
              (call original args s)
  end.

Definition slot (c : Chan) (k : Console) : ConsoleFn :=
  match c with
  | ChLog => c_log k
  | ChWarn => c_warn k
  | ChError => c_error k
  | ChInfo => Native ChInfo
  end.

(** [console.<c>(...args)] *)
Definition console_call (c : Chan) (args : list Value) (s : State) : State :=
  call (slot c (console s)) args s.

(** The slots of [console] as [initGlobalLogger] rewrites them: each
    interceptor closes over what its slot held, and the former [log] and
    [error] are kept in [_originalLog] and [_originalError]. *)
Definition wrap (k : Console) : Console :=
  {| c_log := LogInterceptor (c_log k);
     c_warn := WarnInterceptor (c_warn k);
     c_error := ErrorInterceptor (c_error k);
     _originalLog := Some (c_log k);
     _originalError := Some (c_error k) |}.

(** [initGlobalLogger] *)
Definition initGlobalLogger (s : State) : State :=
  console_call ChInfo
    [VStr "Logger initialized: Console methods intercepted."]
    (set_console (wrap (console s)) s).

(** [indexedDB.open] threw [error] inside the executor of [initPromise]:
    the promise is rejected with it, and no request exists whose handlers
    could run. *)
Definition open_threw (error : Value) (s : State) : State :=
  match initPromise s with
  | Some Pending => set_init (dbInstance s) (Some (Rejected error)) (opens s) s
  | _ => s
  end.

(** [request.onerror] of the open request. *)
Definition open_onerror (event : Value) (s : State) : State :=
  match initPromise s with
  | Some Pending =>
      let s1 := console_call ChError [VStr "IndexedDB error:"; event] s in
      set_init (dbInstance s1) (Some (Rejected open_failure)) (opens s1) s1
  | _ => s
  end.

(** [dbInstance.onerror], reached by the error event of a failed request. *)
Definition db_onerror {A : Type} (g : Settled unit) (r : Settled A) (s : State)
  : State :=
  match g, r with
  | Resolve _, Reject e => console_call ChError [VStr "Database error:"; e] s
  | _, _ => s
  end.

(** [listeners.forEach((listener) => listener(logs))] *)
Definition forEach (logs : list LogEntry) (s : State) : State :=
  fold_left (fun s' l => emit (Invoke Notification l logs) s') (listeners s) s.

(** [saveLog] after [await addLogEntry(...)] *)
Definition saveLog_resume (r : Settled Z) (s : State) : State :=
  match r with
  | Resolve _ => notifyListeners s
  | Reject error =>
      match _originalError (console s) with
      | Some f => call f [VStr "Failed to save log to DB"; error] s
      | None => s
      end
  end.

(** [notifyListeners] after [await getAllLogs()] *)
Definition notifyListeners_resume (r : Settled (list LogEntry)) (s : State)
  : State :=
  match r with
  | Resolve logs => forEach logs s
  | Reject e => console_call ChWarn [VStr "Failed to notify listeners"; e] s
  end.

(** The [Logger] object, each method up to its first [await]; [unsubscribe]
    is the function that [subscribe] returns. *)
Module Logger.

Definition clear (s : State) : State := park Tclear s.

Definition subscribe (l : Listener) (s : State) : State :=
  park (Tsubscribe l) (set_listeners (set_add l (listeners s)) s).

Definition unsubscribe (l : Listener) (s : State) : State :=
  set_listeners (set_delete l (listeners s)) s.

Definition internalError (msg : string) (stack : option string)
  (meta : option Value) (s : State) : State :=
  saveLog ERROR msg stack meta s.

End Logger.

(** [getAllLogs().then(listener)] once [getAllLogs()] settles *)
Definition subscribe_resume (l : Listener) (r : Settled (list LogEntry))
  (s : State) : State :=
  match r with
  | Resolve logs => emit (Invoke Initial l logs) s
  | Reject e => emit (Unhandled e) s
  end.

(** [Logger.clear] after [await clearAllLogs()] *)
Definition clear_resume (r : Settled unit) (s : State) : State :=
  match r with
  | Resolve _ => notifyListeners s
  | Reject e => emit (Unhandled e) s
  end.

(** ** The event loop *)

(** What can happen next: the page calls into the logger or the console,
    the clock moves, the open request completes or the call of
    [indexedDB.open] turns out to have thrown, or the [i]-th suspended call
    resumes with the outcome [o] of its request.  [EvRunReverted i] is the
    resumption in which the request succeeds, the code runs its success
    handler, and the transaction then fails to commit: the engine reverts
    what the transaction wrote, key generator included, and fires [abort],
    for which the code has no handler. *)
Inductive Event : Type :=
| EvTick (t : Z)
| EvInstall
| EvConsole (c : Chan) (args : list Value)
| EvInitDB
| EvCall (caller : nat) (op : Op)
| EvSubscribe (l : Listener)
| EvUnsubscribe (l : Listener)
| EvClear
| EvInternalError (msg : string) (stack : option string) (meta : option Value)
| EvOpenSuccess
| EvOpenError (event : Value)
| EvRun (i : nat) (o : Outcome)
| EvOpenThrew (error : Value)
| EvRunReverted (i : nat).

Fixpoint remove_nth {A : Type} (i : nat) (l : list A) : list A :=
  match i, l with
  | _, [] => []
  | O, _ :: r => r
  | S j, x :: r => x :: remove_nth j r
  end.

(** A direct caller of an exported operation sees its promise settle. *)
Definition caller_resume {A : Type} (c : nat) (f : A -> Answer)
  (r : Settled A) (s : State) : State :=
  emit (Answered c match r with
                   | Resolve a => f a
                   | Reject e => AError e
                   end) s.

(** A parked task resumes: the store operation settles, the awaiting code
    runs, and a failed request's error event reaches [dbInstance.onerror]. *)
Definition resume (t : Task) (g : Settled unit) (o : Outcome) (s : State)
  : State :=
  match t with
  | TsaveLog entry =>
      let (s1, r) := addLogEntry entry g o s in
      db_onerror g r (saveLog_resume r s1)
  | TnotifyListeners =>
      let (s1, r) := getAllLogs g o s in
      db_onerror g r (notifyListeners_resume r s1)
  | Tsubscribe l =>
      let (s1, r) := getAllLogs g o s in
      db_onerror g r (subscribe_resume l r s1)
  | Tclear =>
      let (s1, r) := clearAllLogs g o s in
      db_onerror g r (clear_resume r s1)
  | Tcaller c (OpAdd entry) =>
      let (s1, r) := addLogEntry entry g o s in
      db_onerror g r (caller_resume c AId r s1)
  | Tcaller c OpGetAll =>
      let (s1, r) := getAllLogs g o s in
      db_onerror g r (caller_resume c ALogs r s1)
  | Tcaller c OpClear =>
      let (s1, r) := clearAllLogs g o s in
      db_onerror g r (caller_resume c (fun _ => AVoid) r s1)
  end.

(** The [i]-th suspended call resumes with the outcome [o] of its request. *)
Definition run_task (i : nat) (o : Outcome) (s : State) : State :=
  match nth_error (pending s) i, getDB_resume s with
  | Some t, Some g => resume t g o (set_pending (remove_nth i (pending s)) s)
  | _, _ => s
  end.

Definition step (e : Event) (s : State) : State :=
  match e with
  | EvTick t => set_now t s
  | EvInstall => initGlobalLogger s
  | EvConsole c args => console_call c args s
  | EvInitDB => snd (initDB s)
  | EvCall c op => park (Tcaller c op) s
  | EvSubscribe l => Logger.subscribe l s
  | EvUnsubscribe l => Logger.unsubscribe l s
  | EvClear => Logger.clear s
  | EvInternalError msg stack meta => Logger.internalError msg stack meta s
  | EvOpenSuccess => open_onsuccess s
  | EvOpenError event => open_onerror event s
  | EvRun i o => run_task i o s
  | EvOpenThrew error => open_threw error s
  | EvRunReverted i => set_idb (idb s) (run_task i Commit s)
  end.

Definition run (es : list Event) (s : State) : State :=
  fold_left (fun s' e => step e s') es s.

(** ** Vocabulary of the properties *)

Definition index_before (a b : Z * LogDraft) : Prop := index_le a b = true.

(** Newest first, and among equal timestamps the larger [id] first. *)
Definition newest_first (a b : LogEntry) : Prop :=
  timestamp a > timestamp b \/ (timestamp a = timestamp b /\ id a >= id b).

(** The moves that console calls and parked callers are made of: output on
    a native channel, one more parked task, the lazy open of [getDB]. *)
Inductive quiet (s : State) : State -> Prop :=
| quiet_refl : quiet s s
| quiet_output s' c args :
    quiet s s' -> quiet s (emit (Output c args) s')
| quiet_park s' t :
    quiet s s' -> quiet s (set_pending (pending s' ++ [t]) s')
| quiet_open s' :
    quiet s s' -> quiet s (getDB_call s').

(** The [logError] of the React provider, up to the entry that its
    [persistLog] hands to [addLogEntry].  Its argument is typed
    [Error | string]. *)
Inductive ErrorOrString : Type :=
| IsError (name message : string) (stack : option string)
| IsString (s : string).

Definition persistLog_entry (t : Z) (lv : LogLevel) (msg : string)
  (stack : option string) (meta : option Value) : LogDraft :=
  {| d_timestamp := t; d_level := lv; d_message := msg;
     d_stackTrace := stack; d_metadata := meta |}.

Definition logError (error : ErrorOrString) (meta : option Value) (t : Z)
  : LogDraft :=
  match error with
  | IsError _ m st => persistLog_entry t ERROR m st meta
  | IsString m => persistLog_entry t ERROR m None meta
  end.

(** The tasks a call of [console.<c>] parks. *)
Definition captured (c : Chan) (args : list Value) (s : State) : list Task :=
  skipn (List.length (pending s)) (pending (console_call c args s)).

(** The console after one [initGlobalLogger] on a fresh page, as
    [index.tsx] leaves it. *)
Definition installed_once : Console :=
  {| c_log := LogInterceptor (Native ChLog);
     c_warn := WarnInterceptor (Native ChWarn);
     c_error := ErrorInterceptor (Native ChError);
     _originalLog := Some (Native ChLog);
     _originalError := Some (Native ChError) |}.

Definition boom : Value := VError "Error" "boom" (Some "at foo()"%string).
Definition admin : Value := VObject [("user"%string, VStr "admin")].

(** The entry an interceptor builds from what it was called with. *)
Definition draft (t : Z) (lv : LogLevel) (msg : string)
  (stack : option string) (aux : list Value) : LogDraft :=
  {| d_timestamp := t; d_level := lv; d_message := msg; d_stackTrace := stack;
     d_metadata := match aux with [] => None | _ => Some (VArray aux) end |}.

(** The two writes of the store, as the engine commits them. *)
Definition commit_add (d : LogDraft) (s : State) : State :=
  emit (AddResolved (keygen (idb s)))
       (set_idb {| rows := rows (idb s) ++ [(keygen (idb s), clone_draft d)];
                   keygen := keygen (idb s) + 1 |} s).

Definition commit_clear (s : State) : State :=
  set_idb {| rows := []; keygen := keygen (idb s) |} s.

(** Observations made when a parked task resumes, other than console
    output and the resolution of an insert: a notification reaches only a
    listener that is registered at that moment. *)
Definition delivery (s : State) (o : Obs) : Prop :=
  match o with
  | Invoke Notification l _ => In l (listeners s)
  | Invoke Initial _ _ | Answered _ _ | Unhandled _ => True
  | Output _ _ | AddResolved _ => False
  end.

(** A state predicate that every primitive move of the event loop keeps;
    [ok] tells which subscriptions and installations are among the events
    considered. *)
Record closed (ok : Event -> bool) (P : State -> Prop) : Prop := {
  cl_output : forall s c args, P s -> P (emit (Output c args) s);
  cl_park : forall s t, P s -> P (set_pending (pending s ++ [t]) s);
  cl_open : forall s, P s -> P (getDB_call s);
  cl_unpark : forall s i, P s -> P (set_pending (remove_nth i (pending s)) s);
  cl_delivery : forall s o, delivery s o -> P s -> P (emit o s);
  cl_now : forall s t, P s -> P (set_now t s);
  cl_subscribe : forall s l, ok (EvSubscribe l) = true -> P s ->
                 P (set_listeners (set_add l (listeners s)) s);
  cl_unsubscribe : forall s l, P s ->
                   P (set_listeners (set_delete l (listeners s)) s);
  cl_install : forall s, ok EvInstall = true -> P s ->
               P (set_console (wrap (console s)) s);
  cl_add : forall s d, P s -> P (commit_add d s);
  cl_clear : forall s, P s -> P (commit_clear s);
  cl_opened : forall s, initPromise s = Some Pending -> P s ->
              P (set_init true (Some Fulfilled) (opens s) s);
  cl_refused : forall s, initPromise s = Some Pending -> P s ->
               P (set_init (dbInstance s) (Some (Rejected open_failure))
                           (opens s) s);
  cl_threw : forall s e, ok (EvOpenThrew e) = true ->
             initPromise s = Some Pending -> P s ->
             P (set_init (dbInstance s) (Some (Rejected e)) (opens s) s);
  cl_revert : forall s s' i, ok (EvRunReverted i) = true -> P s -> P s' ->
              P (set_idb (idb s) s')
}.

(** The singleton discipline of [initDB]: [indexedDB.open] has been called
    once if [initPromise] is set and never otherwise, and a connection
    exists only once [initPromise] is fulfilled. *)
Definition lifecycle (s : State) : Prop :=
  opens s = (match initPromise s with Some _ => 1 | None => 0 end)%nat
  /\ (dbInstance s = true -> initPromise s = Some Fulfilled).

Definition promised (s : State) : Prop := initPromise s <> None.

Definition started (s : State) : Prop := lifecycle s /\ promised s.

(** The first open was refused. *)
Definition init_failed (n : nat) (s : State) : Prop :=
  dbInstance s = false
  /\ initPromise s = Some (Rejected open_failure)
  /\ opens s = n.

Definition any_event (e : Event) : bool := true.

(** Runs in which [indexedDB.open] returns its request and does not throw. *)
Definition open_returns (e : Event) : bool :=
  match e with
  | EvOpenThrew _ => false
  | _ => true
  end.


(** What the promise of a store operation called in state [s] settles to,
    [None] while [initPromise] is pending. *)
Definition addLogEntry_settles (entry : LogDraft) (o : Outcome) (s : State)
  : option (Settled Z) :=
  option_map (fun g => snd (addLogEntry entry g o s)) (getDB_resume s).

Definition getAllLogs_settles (o : Outcome) (s : State)
  : option (Settled (list LogEntry)) :=
  option_map (fun g => snd (getAllLogs g o s)) (getDB_resume s).

Definition clearAllLogs_settles (o : Outcome) (s : State)
  : option (Settled unit) :=
  option_map (fun g => snd (clearAllLogs g o s)) (getDB_resume s).

(** The ids that [addLogEntry] has resolved with, oldest first. *)
Fixpoint issued (tr : list Obs) : list Z :=
  match tr with
  | [] => []
  | AddResolved k :: r => k :: issued r
  | _ :: r => issued r
  end.

(** A store as the engine keeps it: no record has a key that the generator
    has yet to give out. *)
Definition store_wf (db : ObjectStore) : bool :=
  forallb (fun r => fst r <? keygen db) (rows db).


(** Runs in which listener [l] is not subscribed again. *)
Definition no_resubscribe (l : Listener) (e : Event) : bool :=
  match e with
  | EvSubscribe l' => negb (Nat.eqb l' l)
  | _ => true
  end.

(** The notifications that [l] has received, oldest first. *)
Fixpoint notifications (l : Listener) (tr : list Obs) : list (list LogEntry) :=
  match tr with
  | [] => []
  | Invoke Notification l' logs :: r =>
      if Nat.eqb l' l then logs :: notifications l r else notifications l r
  | _ :: r => notifications l r
  end.

(** [l] is not registered, and has received the notifications [n0] and no
    other. *)
Definition unsubscribed (l : Listener) (n0 : list (list LogEntry)) (s : State)
  : Prop :=
  ~ In l (listeners s) /\ notifications l (trace s) = n0.

(** Runs without a further [initGlobalLogger]. *)
Definition no_install (e : Event) : bool :=
  match e with
  | EvInstall => false
  | _ => true
  end.

Definition single_install (s : State) : Prop := console s = installed_once.

(** ** Vocabulary of the further properties *)

(** The listener set holds no callback twice. *)
Definition tidy (s : State) : Prop := NoDup (listeners s).

(** A fulfilled [initPromise] comes with the connection. *)
Definition connected (s : State) : Prop :=
  initPromise s = Some Fulfilled -> dbInstance s = true.

(** What [initPromise] can have settled to when [indexedDB.open] did not
    throw. *)
Definition settled_right (s : State) : Prop :=
  match initPromise s with
  | Some Fulfilled => dbInstance s = true
  | Some (Rejected r) => r = open_failure
  | Some Pending | None => True
  end.

(** The keys in the store are pairwise distinct and were all given out. *)
Definition keys_invariant (s : State) : Prop :=
  NoDup (map fst (rows (idb s)))
  /\ Forall (fun r => fst r < keygen (idb s)) (rows (idb s)).

(** The console after [n] calls of [initGlobalLogger] on a fresh page. *)
Definition installed (n : nat) : Console := Nat.iter n wrap native_console.

(** The entry that the interceptor of channel [c] hands to [saveLog] when
    called with [args] at time [t]; [console.info] has no interceptor. *)
Definition intercepted (c : Chan) (args : list Value) (t : Z) : option LogDraft :=
  match c with
  | ChLog => Some {| d_timestamp := t; d_level := INFO;
                     d_message := plain_message args;
                     d_stackTrace := None; d_metadata := rest args |}
  | ChWarn => Some {| d_timestamp := t; d_level := WARN;
                      d_message := plain_message args;
                      d_stackTrace := None; d_metadata := rest args |}
  | ChError => Some {| d_timestamp := t; d_level := ERROR;
                       d_message := error_message args;
                       d_stackTrace := error_stack args;
                       d_metadata := rest args |}
  | ChInfo => None
  end.

(** One [forEach] of [notifyListeners], as the observers see it. *)
Definition broadcast (logs : list LogEntry) (ls : list Listener) : list Obs :=
  map (fun l => Invoke Notification l logs) ls.

(** State [s] with the observations [tr]. *)
Definition with_trace (tr : list Obs) (s : State) : State :=
  mkState (now s) (idb s) (opens s) (dbInstance s) (initPromise s)
          (listeners s) (console s) (pending s) tr.

(** A suspended [saveLog]. *)
Definition is_saveLog (t : Task) : bool :=
  match t with
  | TsaveLog _ => true
  | _ => false
  end.

(** ** components/ErrorBoundary *)

Module ErrorBoundary.

Record BoundaryState : Type := { hasError : bool }.

(** The constructor's [this.state]. *)
Definition initial : BoundaryState := {| hasError := false |}.

Definition getDerivedStateFromError (error : Value) : BoundaryState :=
  {| hasError := true |}.

(** [componentDidCatch(error, errorInfo)] for an [Error] with the given
    name, message and stack and [errorInfo.componentStack = componentStack]. *)
Definition componentDidCatch (name message : string) (stack : option string)
  (componentStack : Value) (s : State) : State :=
  console_call ChError
    [VStr "Uncaught Exception in Component";
     VObject [("componentStack"%string, componentStack);
              ("originalError"%string, VStr message)]] s.

(** [render]: [true] for the fallback, [false] for the children. *)
Definition render (b : BoundaryState) : bool := hasError b.

End ErrorBoundary.

(** ** services/api *)

Module Api.

(** What the response interceptor reads of a rejected request: its
    [message], and the [config] and [response] it may carry. *)
Record RequestConfig : Type := { url : Value; method : Value }.

Record Response : Type := { status : Value; statusText : Value; data : Value }.

Record AxiosError : Type := {
  message : Value;
  config : option RequestConfig;
  response : option Response
}.

(** [x?.f] *)
Definition optional {A : Type} (x : option A) (f : A -> Value) : Value :=
  match x with
  | Some a => f a
  | None => VUndefined
  end.

Definition errorMeta (error : AxiosError) : Value :=
  VObject [("url"%string, optional (config error) url);
           ("method"%string, optional (config error) method);
           ("status"%string, optional (response error) status);
           ("statusText"%string, optional (response error) statusText);
           ("data"%string, optional (response error) data)].

(** The handlers of [api.interceptors.response.use].  The second prints
    and passes the rejection on: the promise it returns is rejected with
    the error it was given. *)
Definition onFulfilled {A : Type} (response : A) : A := response.

Definition onRejected (error : AxiosError) (s : State) : State * AxiosError :=
  (console_call ChError
     [VStr ("Axios Error: " ++ ToString (message error)); errorMeta error] s,
   error).

End Api.

(** ** hooks/useLogHistory *)

Module Hook.

(** The two [useState] cells of the hook, and the callbacks its effect has
    created so far (each run of the effect builds a new closure). *)
Record Component : Type := {
  logs : list LogEntry;
  isLoading : bool;
  callbacks : list Listener
}.

Definition initial : Component :=
  {| logs := []; isLoading := true; callbacks := [] |}.

(** The effect: [setIsLoading(true)], then [Logger.subscribe] with a new
    callback [l]. *)
Definition effect (l : Listener) (cs : Component * State) : Component * State :=
  ({| logs := logs (fst cs); isLoading := true;
      callbacks := l :: callbacks (fst cs) |},
   Logger.subscribe l (snd cs)).

(** The effect's cleanup: [unsubscribe()]. *)
Definition cleanup (l : Listener) (cs : Component * State) : Component * State :=
  (fst cs, Logger.unsubscribe l (snd cs)).

(** The callback: [setLogs(updatedLogs); setIsLoading(false)]. *)
Definition callback (updatedLogs : list LogEntry) (c : Component) : Component :=
  {| logs := updatedLogs; isLoading := false; callbacks := callbacks c |}.

(** An observation addressed to one of the component's callbacks runs it. *)
Definition react (c : Component) (o : Obs) : Component :=
  match o with
  | Invoke _ l updatedLogs =>
      if existsb (Nat.eqb l) (callbacks c) then callback updatedLogs c else c
  | _ => c
  end.

(** [clearLogs: Logger.clear], the effect and its cleanup, or anything else
    that happens on the page. *)
Inductive HookEvent : Type :=
| Mount (l : Listener)
| Unmount (l : Listener)
| ClearLogs
| Page (e : Event).

Definition page (e : Event) (cs : Component * State) : Component * State :=
  let s' := step e (snd cs) in
  (fold_left react (skipn (List.length (trace (snd cs))) (trace s')) (fst cs),
   s').

Definition hstep (e : HookEvent) (cs : Component * State) : Component * State :=
  match e with
  | Mount l => effect l cs
  | Unmount l => cleanup l cs
  | ClearLogs => page EvClear cs
  | Page e' => page e' cs
  end.

Definition hrun (es : list HookEvent) (cs : Component * State)
  : Component * State :=
  fold_left (fun cs' e => hstep e cs') es cs.

End Hook.

(** ** The React provider ([LoggerProvider])

    The provider calls the store operations itself.  Its suspended calls
    are kept in [waiting], apart from those of the logger. *)

Module Provider.

(** What the caller of [refreshLogs] does when it returns: nothing, or the
    [finally] of [init]. *)
Inductive After : Type := Nothing | FinishInit.

Inductive PTask : Type :=
| Tinit
| TrefreshLogs (k : After)
| TpersistLog (entry : LogDraft)
| TclearLogs.

Record Ctx : Type := mkCtx {
  core : State;
  logs : list LogEntry;
  isLoading : bool;
  waiting : list PTask
}.

(** The provider as first rendered: [useState([])], [useState(true)]. *)
Definition initial (s : State) : Ctx :=
  {| core := s; logs := []; isLoading := true; waiting := [] |}.

Definition set_core (s : State) (c : Ctx) : Ctx :=
  mkCtx s (logs c) (isLoading c) (waiting c).
Definition setLogs (l : list LogEntry) (c : Ctx) : Ctx :=
  mkCtx (core c) l (isLoading c) (waiting c).
Definition setIsLoading (b : bool) (c : Ctx) : Ctx :=
  mkCtx (core c) (logs c) b (waiting c).
Definition set_waiting (w : list PTask) (c : Ctx) : Ctx :=
  mkCtx (core c) (logs c) (isLoading c) w.

(** A call of a store operation runs [getDB] up to its [await] and waits. *)
Definition wait (t : PTask) (c : Ctx) : Ctx :=
  set_waiting (waiting c ++ [t]) (set_core (getDB_call (core c)) c).

(** [refreshLogs] up to [await getAllLogs()] *)
Definition refreshLogs (k : After) (c : Ctx) : Ctx := wait (TrefreshLogs k) c.

(** The mount effect, [init], up to [await initDB()] *)
Definition init (c : Ctx) : Ctx :=
  set_waiting (waiting c ++ [Tinit])
    (setIsLoading true (set_core (snd (initDB (core c))) c)).

(** [persistLog] up to [await addLogEntry(entry)] *)
Definition persistLog (lv : LogLevel) (msg : string) (stack : option string)
  (meta : option Value) (c : Ctx) : Ctx :=
  wait (TpersistLog (persistLog_entry (now (core c)) lv msg stack meta)) c.

Definition logInfo (msg : string) (meta : option Value) (c : Ctx) : Ctx :=
  persistLog INFO msg None meta c.

Definition logWarn (msg : string) (meta : option Value) (c : Ctx) : Ctx :=
  persistLog WARN msg None meta c.

(** The entry that [logError] builds at time [t]. *)
Definition logError_entry (error : ErrorOrString) (meta : option Value) (t : Z)
  : LogDraft := logError error meta t.

Definition logError (error : ErrorOrString) (meta : option Value) (c : Ctx)
  : Ctx :=
  match error with
  | IsError _ m st => persistLog ERROR m st meta c
  | IsString m => persistLog ERROR m None meta c
  end.

(** [clearLogs] up to [await clearAllLogs()] *)
Definition clearLogs (c : Ctx) : Ctx := wait TclearLogs c.

(** What [await initDB()] gives, [None] while the open is pending. *)
Definition initDB_resume (s : State) : option (Settled unit) :=
  if dbInstance s then Some (Resolve tt)
  else match initPromise s with
       | Some Fulfilled => Some (Resolve tt)
       | Some (Rejected r) => Some (Reject r)
       | Some Pending | None => None
       end.

Definition console_error (text : string) (e : Value) (c : Ctx) : Ctx :=
  set_core (console_call ChError [VStr text; e] (core c)) c.

Definition finish (k : After) (c : Ctx) : Ctx :=
  match k with
  | Nothing => c
  | FinishInit => setIsLoading false c
  end.

(** [dbInstance.onerror] after the provider's own handling of a failed
    request. *)
Definition bubble {A : Type} (g : Settled unit) (r : Settled A) (c : Ctx) : Ctx :=
  set_core (db_onerror g r (core c)) c.

(** A waiting call resumes; [None] when it cannot yet. *)
Definition resume (t : PTask) (o : Outcome) (c : Ctx) : option Ctx :=
  match t with
  | Tinit =>
      match initDB_resume (core c) with
      | None => None
      | Some (Resolve _) => Some (refreshLogs FinishInit c)
      | Some (Reject error) =>
          Some (setIsLoading false
                  (console_error "Failed to initialize Logger DB:" error c))
      end
  | TrefreshLogs k =>
      match getDB_resume (core c) with
      | None => None
      | Some g =>
          let (s1, r) := getAllLogs g o (core c) in
          let c1 := match r with
                    | Resolve fetchedLogs => setLogs fetchedLogs (set_core s1 c)
                    | Reject error =>
                        console_error "Failed to fetch logs:" error
                                      (set_core s1 c)
                    end in
          Some (bubble g r (finish k c1))
      end
  | TpersistLog entry =>
      match getDB_resume (core c) with
      | None => None
      | Some g =>
          let (s1, r) := addLogEntry entry g o (core c) in
          let c1 := match r with
                    | Resolve _ => refreshLogs Nothing (set_core s1 c)
                    | Reject error =>
                        console_error
                          "CRITICAL: Failed to persist log to IndexedDB" error
                          (set_core s1 c)
                    end in
          Some (bubble g r c1)
      end
  | TclearLogs =>
      match getDB_resume (core c) with
      | None => None
      | Some g =>
          let (s1, r) := clearAllLogs g o (core c) in
          let c1 := match r with
                    | Resolve _ => refreshLogs Nothing (set_core s1 c)
                    | Reject error =>
                        console_error "Failed to clear logs:" error
                                      (set_core s1 c)
                    end in
          Some (bubble g r c1)
      end
  end.

Inductive PEvent : Type :=
| Mount
| LogInfo (msg : string) (meta : option Value)
| LogWarn (msg : string) (meta : option Value)
| LogError (error : ErrorOrString) (meta : option Value)
| RefreshLogs
| ClearLogs
| Resume (i : nat) (o : Outcome)
| Page (e : Event).

Definition pstep (e : PEvent) (c : Ctx) : Ctx :=
  match e with
  | Mount => init c
  | LogInfo msg meta => logInfo msg meta c
  | LogWarn msg meta => logWarn msg meta c
  | LogError error meta => logError error meta c
  | RefreshLogs => refreshLogs Nothing c
  | ClearLogs => clearLogs c
  | Resume i o =>
      match nth_error (waiting c) i with
      | Some t =>
          match resume t o (set_waiting (remove_nth i (waiting c)) c) with
          | Some c' => c'
          | None => c
          end
      | None => c
      end
  | Page e' => set_core (step e' (core c)) c
  end.

Definition prun (es : list PEvent) (c : Ctx) : Ctx :=
  fold_left (fun c' e => pstep e c') es c.

(** The entry that a logging call of the context builds at time [t]. *)
Definition entry_of (e : PEvent) (t : Z) : option LogDraft :=
  match e with
  | LogInfo msg meta => Some (persistLog_entry t INFO msg None meta)
  | LogWarn msg meta => Some (persistLog_entry t WARN msg None meta)
  | LogError error meta => Some (logError_entry error meta t)
  | _ => None
  end.

End Provider.

(** Observations that call no listener. *)
Definition silent (o : Obs) : bool :=
  match o with
  | Invoke _ _ _ => false
  | _ => true
  end.


(** * Properties *)

(** ** The timestamp index *)

Section TimestampIndex.

Lemma index_before_spec a b :
  index_before a b <->
  d_timestamp (snd a) < d_timestamp (snd b)
  \/ (d_timestamp (snd a) = d_timestamp (snd b) /\ fst a <= fst b).
Proof.
  unfold index_before, index_le.
  rewrite orb_true_iff, andb_true_iff, Z.ltb_lt, Z.eqb_eq, Z.leb_le.
  tauto.
Qed.

Lemma index_before_total a b : index_le a b = false -> index_before b a.
Proof.
  intros H. apply index_before_spec.
  unfold index_le in H.
  apply orb_false_iff in H as [H1 H2].
  apply Z.ltb_ge in H1.
  apply andb_false_iff in H2 as [H2 | H2].
  - apply Z.eqb_neq in H2. lia.
  - apply Z.leb_gt in H2. lia.
Qed.

Lemma index_before_trans a b c :
  index_before a b -> index_before b c -> index_before a c.
Proof. rewrite !index_before_spec. lia. Qed.

Lemma index_insert_perm x l : Permutation (index_insert x l) (x :: l).
Proof.
  induction l as [|y r IH]; simpl.
  - reflexivity.
  - destruct (index_le x y).
    + reflexivity.
    + rewrite IH. apply perm_swap.
Qed.

Lemma index_records_perm db : Permutation (index_records db) (rows db).
Proof.
  unfold index_records.
  induction (rows db) as [|x l IH]; simpl.
  - constructor.
  - rewrite index_insert_perm. now constructor.
Qed.

Lemma index_insert_sorted x l :
  StronglySorted index_before l -> StronglySorted index_before (index_insert x l).
Proof.
  induction 1 as [|y r Hr IH Hy]; simpl.
  - repeat constructor.
  - destruct (index_le x y) eqn:E.
    + constructor.
      * now constructor.
      * constructor; [exact E|].
        eapply Forall_impl; [|exact Hy].
        intros z Hz. eapply index_before_trans; eauto.
    + constructor; [exact IH|].
      eapply Permutation_Forall.
      * symmetry. apply index_insert_perm.
      * constructor; [now apply index_before_total | exact Hy].
Qed.

Lemma index_records_sorted db : StronglySorted index_before (index_records db).
Proof.
  unfold index_records.
  induction (rows db) as [|x l IH]; simpl.
  - constructor.
  - now apply index_insert_sorted.
Qed.

Lemma StronglySorted_snoc {A : Type} (R : A -> A -> Prop) l x :
  StronglySorted R l -> Forall (fun y => R y x) l -> StronglySorted R (l ++ [x]).
Proof.
  induction 1 as [|y r Hr IH Hy]; intros Hx; simpl.
  - repeat constructor.
  - inversion Hx; subst.
    constructor; [now apply IH|].
    apply Forall_app. split; [exact Hy | now repeat constructor].
Qed.

Lemma StronglySorted_rev {A : Type} (R : A -> A -> Prop) l :
  StronglySorted R l -> StronglySorted (fun a b => R b a) (rev l).
Proof.
  induction 1 as [|y r Hr IH Hy]; simpl.
  - constructor.
  - apply StronglySorted_snoc; [exact IH|].
    apply Forall_rev. exact Hy.
Qed.

Lemma StronglySorted_map {A B : Type} (R : A -> A -> Prop)
  (Q : B -> B -> Prop) (f : A -> B) l :
  (forall a b, R a b -> Q (f a) (f b)) ->
  StronglySorted R l -> StronglySorted Q (map f l).
Proof.
  intros HRQ. induction 1 as [|y r Hr IH Hy]; simpl; constructor; auto.
  apply Forall_map. eapply Forall_impl; [|exact Hy]. auto.
Qed.

Lemma StronglySorted_impl {A : Type} (R Q : A -> A -> Prop) l :
  (forall a b, R a b -> Q a b) -> StronglySorted R l -> StronglySorted Q l.
Proof.
  intros HRQ. induction 1 as [|y r Hr IH Hy]; constructor; auto.
  eapply Forall_impl; [|exact Hy]. auto.
Qed.

Lemma cursor_prev_sorted db : StronglySorted newest_first (cursor_prev db).
Proof.
  unfold cursor_prev.
  eapply StronglySorted_map;
    [|apply StronglySorted_rev, index_records_sorted].
  intros a b H. apply index_before_spec in H.
  unfold newest_first; simpl. lia.
Qed.

Lemma cursor_prev_perm db :
  Permutation (cursor_prev db)
              (map (fun r => with_id (fst r) (snd r)) (rows db)).
Proof.
  unfold cursor_prev. apply Permutation_map.
  rewrite <- Permutation_rev. apply index_records_perm.
Qed.

End TimestampIndex.

(** [C1] A scan that succeeds leaves the store as it was and returns every
    stored record exactly once, ordered by descending [timestamp], records
    with equal timestamps by descending [id]; a second scan of the store it
    left returns the same sequence. *)
Theorem getAllLogs_newest_first_stable (s : State) :
  let logs := cursor_prev (idb s) in
  getAllLogs (Resolve tt) Commit s = (s, Resolve logs)
  /\ Permutation logs (map (fun r => with_id (fst r) (snd r)) (rows (idb s)))
  /\ StronglySorted (fun a b => timestamp a >= timestamp b) logs
  /\ StronglySorted newest_first logs
  /\ snd (getAllLogs (Resolve tt) Commit
            (fst (getAllLogs (Resolve tt) Commit s))) = Resolve logs.
Proof.
  cbn zeta. repeat split.
  - apply cursor_prev_perm.
  - eapply StronglySorted_impl; [|apply cursor_prev_sorted].
    unfold newest_first. intros a b H. lia.
  - apply cursor_prev_sorted.
Qed.

(** ** Frame facts *)

Section Frame.

Lemma quiet_trans s1 s2 s3 : quiet s1 s2 -> quiet s2 s3 -> quiet s1 s3.
Proof. intros H12 H23. induction H23; [assumption | now constructor ..]. Qed.

Lemma quiet_parked s t : quiet s (park t s).
Proof. unfold park. apply quiet_park, quiet_open, quiet_refl. Qed.

Lemma quiet_saveLog s lv msg stack meta : quiet s (saveLog lv msg stack meta s).
Proof. apply quiet_parked. Qed.

Lemma quiet_call f args s : quiet s (call f args s).
Proof.
  induction f as [c | f IH | f IH | f IH]; simpl.
  - apply quiet_output, quiet_refl.
  - eapply quiet_trans; [exact IH | apply quiet_saveLog].
  - eapply quiet_trans; [exact IH | apply quiet_saveLog].
  - eapply quiet_trans; [exact IH | apply quiet_saveLog].
Qed.

Lemma quiet_console_call c args s : quiet s (console_call c args s).
Proof. apply quiet_call. Qed.

Lemma getDB_call_cases s :
  getDB_call s = s
  \/ (dbInstance s = false /\ initPromise s = None
      /\ getDB_call s = set_init false (Some Pending) (S (opens s)) s).
Proof.
  unfold getDB_call, initDB.
  destruct (dbInstance s) eqn:D; [now left|].
  destruct (initPromise s) eqn:P; [now left|].
  right. auto.
Qed.

(** What no quiet move touches. *)
Lemma quiet_frame s s' :
  quiet s s' ->
  now s' = now s /\ idb s' = idb s /\ dbInstance s' = dbInstance s
  /\ listeners s' = listeners s /\ console s' = console s.
Proof.
  induction 1 as [| s' c a _ IH | s' t _ IH | s' _ IH]; [auto | exact IH ..|].
  destruct (getDB_call_cases s') as [-> | (D & _ & ->)]; [exact IH|].
  simpl. rewrite D in IH. exact IH.
Qed.

Lemma quiet_now s s' : quiet s s' -> now s' = now s.
Proof. intros H. apply quiet_frame in H. tauto. Qed.

Lemma quiet_idb s s' : quiet s s' -> idb s' = idb s.
Proof. intros H. apply quiet_frame in H. tauto. Qed.

Lemma quiet_dbInstance s s' : quiet s s' -> dbInstance s' = dbInstance s.
Proof. intros H. apply quiet_frame in H. tauto. Qed.

Lemma quiet_listeners s s' : quiet s s' -> listeners s' = listeners s.
Proof. intros H. apply quiet_frame in H. tauto. Qed.

Lemma quiet_console s s' : quiet s s' -> console s' = console s.
Proof. intros H. apply quiet_frame in H. tauto. Qed.

Lemma getDB_call_pending s : pending (getDB_call s) = pending s.
Proof. destruct (getDB_call_cases s) as [-> | (_ & _ & ->)]; reflexivity. Qed.

Lemma getDB_call_trace s : trace (getDB_call s) = trace s.
Proof. destruct (getDB_call_cases s) as [-> | (_ & _ & ->)]; reflexivity. Qed.

Lemma park_pending t s : pending (park t s) = pending s ++ [t].
Proof. unfold park. simpl. now rewrite getDB_call_pending. Qed.

Lemma park_trace t s : trace (park t s) = trace s.
Proof. unfold park. simpl. apply getDB_call_trace. Qed.

Lemma call_original_pending c args s :
  pending (call (Native c) args s) = pending s.
Proof. reflexivity. Qed.

Lemma skipn_length_app {A : Type} (l r : list A) :
  skipn (List.length l) (l ++ r) = r.
Proof. induction l; simpl; auto. Qed.

End Frame.

(** ** Capture normalisation *)

Section Capture.

Lemma interceptor_parks f lv msg stack args s :
  pending (saveLog lv msg stack (rest args) (call f args s))
  = pending (call f args s)
    ++ [TsaveLog {| d_timestamp := now s; d_level := lv; d_message := msg;
                    d_stackTrace := stack; d_metadata := rest args |}].
Proof.
  unfold saveLog. rewrite park_pending.
  now rewrite (quiet_now _ _ (quiet_call f args s)).
Qed.

Lemma rest_cons v aux :
  rest (v :: aux) = match aux with [] => None | _ => Some (VArray aux) end.
Proof. now destruct aux. Qed.

Lemma captured_installed_once c args s :
  console s = installed_once ->
  captured c args s =
  match c with
  | ChLog => [TsaveLog {| d_timestamp := now s; d_level := INFO;
                          d_message := plain_message args;
                          d_stackTrace := None; d_metadata := rest args |}]
  | ChWarn => [TsaveLog {| d_timestamp := now s; d_level := WARN;
                           d_message := plain_message args;
                           d_stackTrace := None; d_metadata := rest args |}]
  | ChError => [TsaveLog {| d_timestamp := now s; d_level := ERROR;
                            d_message := error_message args;
                            d_stackTrace := error_stack args;
                            d_metadata := rest args |}]
  | ChInfo => []
  end.
Proof.
  intros K. unfold captured, console_call. rewrite K.
  destruct c; cbn [slot installed_once c_log c_warn c_error call];
    unfold saveLog; rewrite ?park_pending; cbn [emit pending now];
    try apply skipn_length_app.
  rewrite <- (app_nil_r (pending s)) at 2. apply skipn_length_app.
Qed.

End Capture.

(** [C4] (as amended) An [Error] given as first argument to the
    [console.error] interceptor, or to [logError], yields an entry of level
    [ERROR] whose message is the error's message and whose stack trace is
    the error's stack, absent when the error has none.  Given as first
    argument to the [console.log] or [console.warn] interceptor, the same
    [Error] yields an entry of level [INFO] or [WARN] whose message is the
    error's string form, as [Error.prototype.toString] prints it, and which
    has no stack trace, whatever stack the error carries.  The remaining
    arguments are the metadata on all three channels. *)
Theorem error_channel_keeps_message_and_stack
  (name m : string) (st : option string) (aux : list Value) :
  (forall original s,
      pending (call (ErrorInterceptor original) (VError name m st :: aux) s)
      = pending (call original (VError name m st :: aux) s)
        ++ [TsaveLog (draft (now s) ERROR m st aux)])
  /\ (forall meta t,
         logError (IsError name m st) meta t
         = {| d_timestamp := t; d_level := ERROR; d_message := m;
              d_stackTrace := st; d_metadata := meta |})
  /\ (forall original s,
         pending (call (LogInterceptor original) (VError name m st :: aux) s)
         = pending (call original (VError name m st :: aux) s)
           ++ [TsaveLog (draft (now s) INFO (ErrorToString name m) None aux)])
  /\ (forall original s,
         pending (call (WarnInterceptor original) (VError name m st :: aux) s)
         = pending (call original (VError name m st :: aux) s)
           ++ [TsaveLog (draft (now s) WARN (ErrorToString name m) None aux)]).
Proof.
  split; [|split; [reflexivity | split]];
    intros original s; cbn [call];
    rewrite interceptor_parks; unfold draft; now rewrite rest_cons.
Qed.

(** The example of [C4], end to end: [console.error(e)] for [e] with message
    "boom" and stack "at foo()" stores exactly that, at level [ERROR]. *)
Example boom_is_stored (t : Z) :
  cursor_prev
    (idb (run [EvInstall; EvConsole ChError [boom]; EvOpenSuccess;
               EvRun 0 Commit] (fresh IDB.empty t)))
  = [{| id := 1; timestamp := t; level := ERROR; message := "boom";
        stackTrace := Some "at foo()"%string; metadata := None |}].
Proof. reflexivity. Qed.

(** [C4] as stated fails: on the warning channel an [Error] is turned into
    a string like any other value and its stack is not recorded. *)
Lemma warn_channel_stringifies_errors :
  ~ (forall c, In c [ChLog; ChWarn; ChError] ->
     forall name m st aux s, console s = installed_once ->
     exists d, captured c (VError name m st :: aux) s = [TsaveLog d]
               /\ d_message d = m /\ d_stackTrace d = st).
Proof.
  intros H.
  destruct (H ChWarn (or_intror (or_introl eq_refl))
              "Error"%string "boom"%string (Some "at foo()"%string) []
              (initGlobalLogger (fresh IDB.empty 0)) eq_refl)
    as (d & Hd & Hm & Hs).
  vm_compute in Hd. injection Hd as <-. discriminate Hs.
Qed.

(** What the warning channel records for that error. *)
Example warn_channel_on_boom :
  captured ChWarn [boom] (initGlobalLogger (fresh IDB.empty 0))
  = [TsaveLog {| d_timestamp := 0; d_level := WARN;
                 d_message := "Error: boom"; d_stackTrace := None;
                 d_metadata := None |}].
Proof. reflexivity. Qed.

(** [C5] The guard [args[0] ? String(args[0]) : ''] of the [console.log]
    and [console.warn] interceptors is meant for a call without arguments,
    but it also catches a first argument that is there and falsy.  For 0,
    false, null and NaN, none of them an [Error] and none with an empty
    string form, the two interceptors record the empty message, while the
    [console.error] interceptor, which has no such guard, records the
    value's string form.  The stack trace is absent and the remaining
    arguments are the metadata on all three. *)
Theorem falsy_primary_value_is_recorded_empty (aux : list Value)
  (original : ConsoleFn) (s : State) :
  Forall
    (fun v =>
       instanceofError v = false
       /\ ToString v <> EmptyString
       /\ pending (call (LogInterceptor original) (v :: aux) s)
          = pending (call original (v :: aux) s)
            ++ [TsaveLog (draft (now s) INFO EmptyString None aux)]
       /\ pending (call (WarnInterceptor original) (v :: aux) s)
          = pending (call original (v :: aux) s)
            ++ [TsaveLog (draft (now s) WARN EmptyString None aux)]
       /\ pending (call (ErrorInterceptor original) (v :: aux) s)
          = pending (call original (v :: aux) s)
            ++ [TsaveLog (draft (now s) ERROR (ToString v) None aux)])
    [VNum 0; VBool false; VNull; VNaN].
Proof.
  repeat constructor; try discriminate;
    cbn [call]; rewrite interceptor_parks; unfold draft;
    now rewrite rest_cons.
Qed.

(** [console.warn(0)] on the page as [index.tsx] sets it up. *)
Example warn_zero_is_recorded_empty :
  captured ChWarn [VNum 0] (initGlobalLogger (fresh IDB.empty 0))
  = [TsaveLog {| d_timestamp := 0; d_level := WARN; d_message := EmptyString;
                 d_stackTrace := None; d_metadata := None |}]
  /\ captured ChError [VNum 0] (initGlobalLogger (fresh IDB.empty 0))
     = [TsaveLog {| d_timestamp := 0; d_level := ERROR; d_message := "0";
                    d_stackTrace := None; d_metadata := None |}].
Proof. split; reflexivity. Qed.

(** The example of [C5]: [console.warn("hello", {user: "admin"})]. *)
Example hello_admin_is_captured :
  pending (call (WarnInterceptor (Native ChWarn)) [VStr "hello"; admin]
                (fresh IDB.empty 0))
  = [TsaveLog {| d_timestamp := 0; d_level := WARN; d_message := "hello";
                 d_stackTrace := None;
                 d_metadata := Some (VArray [admin]) |}].
Proof. reflexivity. Qed.

(** ** Invariants of the event loop *)

Section Closed.

Variable ok : Event -> bool.
Variable P : State -> Prop.
Hypothesis HP : closed ok P.

Lemma closed_quiet s s' : quiet s s' -> P s -> P s'.
Proof.
  intros Q Hs. induction Q.
  - exact Hs.
  - now apply (cl_output _ _ HP).
  - now apply (cl_park _ _ HP).
  - now apply (cl_open _ _ HP).
Qed.

Lemma closed_call f args s : P s -> P (call f args s).
Proof. apply closed_quiet, quiet_call. Qed.

Lemma closed_parked t s : P s -> P (park t s).
Proof. apply closed_quiet, quiet_parked. Qed.

Lemma set_idb_same s : set_idb (idb s) s = s.
Proof. now destruct s. Qed.

Lemma closed_db_onerror {A : Type} g (r : Settled A) s :
  P s -> P (db_onerror g r s).
Proof.
  intros Hs. destruct g, r; simpl; auto; now apply closed_call.
Qed.

Lemma closed_forEach logs s : P s -> P (forEach logs s).
Proof.
  unfold forEach.
  assert (G : forall ls s',
             incl ls (listeners s') -> P s' ->
             P (fold_left (fun s'' l => emit (Invoke Notification l logs) s'')
                          ls s')).
  { induction ls as [|l ls IH]; intros s' Hin Hs'; simpl; [exact Hs'|].
    apply IH.
    - intros x Hx. simpl. apply Hin. now right.
    - apply (cl_delivery _ _ HP); [|exact Hs'].
      simpl. apply Hin. now left. }
  apply G. apply incl_refl.
Qed.

Lemma closed_addLogEntry entry g o s :
  P s -> P (fst (addLogEntry entry g o s)).
Proof.
  intros Hs. unfold addLogEntry, IDB.add.
  destruct g; [|exact Hs].
  destruct o; simpl.
  - destruct (keygen (idb s) >? max_key); simpl.
    + now rewrite set_idb_same.
    + now apply (cl_add _ _ HP).
  - now rewrite set_idb_same.
Qed.

Lemma closed_getAllLogs g o s : P s -> P (fst (getAllLogs g o s)).
Proof. unfold getAllLogs. now destruct g. Qed.

Lemma closed_clearAllLogs g o s : P s -> P (fst (clearAllLogs g o s)).
Proof.
  intros Hs. unfold clearAllLogs, IDB.clear.
  destruct g; [|exact Hs].
  destruct o; simpl.
  - now apply (cl_clear _ _ HP).
  - now rewrite set_idb_same.
Qed.

Lemma closed_saveLog_resume r s : P s -> P (saveLog_resume r s).
Proof.
  intros Hs. destruct r; simpl.
  - now apply closed_parked.
  - destruct (_originalError (console s)); [now apply closed_call | exact Hs].
Qed.

Lemma closed_notifyListeners_resume r s :
  P s -> P (notifyListeners_resume r s).
Proof.
  intros Hs. destruct r; simpl.
  - now apply closed_forEach.
  - now apply closed_call.
Qed.

Lemma closed_subscribe_resume l r s : P s -> P (subscribe_resume l r s).
Proof. intros Hs. destruct r; simpl; now apply (cl_delivery _ _ HP). Qed.

Lemma closed_clear_resume r s : P s -> P (clear_resume r s).
Proof.
  intros Hs. destruct r; simpl.
  - now apply closed_parked.
  - now apply (cl_delivery _ _ HP).
Qed.

Lemma closed_caller_resume {A : Type} c (f : A -> Answer) r s :
  P s -> P (caller_resume c f r s).
Proof. intros Hs. now apply (cl_delivery _ _ HP). Qed.

Lemma closed_resume t g o s : P s -> P (resume t g o s).
Proof.
  intros Hs. destruct t as [entry | | l | | c [entry | |]]; simpl.
  - pose proof (closed_addLogEntry entry g o s Hs) as H.
    destruct (addLogEntry entry g o s) as [s1 r].
    now apply closed_db_onerror, closed_saveLog_resume.
  - pose proof (closed_getAllLogs g o s Hs) as H.
    destruct (getAllLogs g o s) as [s1 r].
    now apply closed_db_onerror, closed_notifyListeners_resume.
  - pose proof (closed_getAllLogs g o s Hs) as H.
    destruct (getAllLogs g o s) as [s1 r].
    now apply closed_db_onerror, closed_subscribe_resume.
  - pose proof (closed_clearAllLogs g o s Hs) as H.
    destruct (clearAllLogs g o s) as [s1 r].
    now apply closed_db_onerror, closed_clear_resume.
  - pose proof (closed_addLogEntry entry g o s Hs) as H.
    destruct (addLogEntry entry g o s) as [s1 r].
    now apply closed_db_onerror, closed_caller_resume.
  - pose proof (closed_getAllLogs g o s Hs) as H.
    destruct (getAllLogs g o s) as [s1 r].
    now apply closed_db_onerror, closed_caller_resume.
  - pose proof (closed_clearAllLogs g o s Hs) as H.
    destruct (clearAllLogs g o s) as [s1 r].
    now apply closed_db_onerror, closed_caller_resume.
Qed.

Lemma initDB_is_getDB_call s : snd (initDB s) = getDB_call s.
Proof. unfold getDB_call, initDB. now destruct (dbInstance s). Qed.

Lemma closed_run_task i o s : P s -> P (run_task i o s).
Proof.
  intros Hs. unfold run_task.
  destruct (nth_error (pending s) i); [|exact Hs].
  destruct (getDB_resume s); [|exact Hs].
  apply closed_resume. now apply (cl_unpark _ _ HP).
Qed.

Lemma closed_step e s : ok e = true -> P s -> P (step e s).
Proof.
  intros He Hs. destruct e; simpl.
  - now apply (cl_now _ _ HP).
  - unfold initGlobalLogger. apply closed_call.
    now apply (cl_install _ _ HP).
  - now apply closed_call.
  - rewrite initDB_is_getDB_call. now apply (cl_open _ _ HP).
  - now apply closed_parked.
  - apply closed_parked. now apply (cl_subscribe _ _ HP).
  - now apply (cl_unsubscribe _ _ HP).
  - now apply closed_parked.
  - now apply closed_parked.
  - unfold open_onsuccess.
    destruct (initPromise s) as [[| |]|] eqn:E; auto.
    now apply (cl_opened _ _ HP).
  - unfold open_onerror.
    destruct (initPromise s) as [[| |]|] eqn:E; auto.
    apply (cl_refused _ _ HP).
    + pose proof (quiet_console_call ChError
                    [VStr "IndexedDB error:"; event] s) as Q.
      clear Hs HP He. revert E.
      induction Q; intros E; simpl; auto.
      destruct (getDB_call_cases s') as [-> | (_ & N & _)]; auto.
      rewrite IHQ in N; [discriminate | exact E].
    + now apply closed_call.
  - now apply closed_run_task.
  - unfold open_threw.
    destruct (initPromise s) as [[| |]|] eqn:E; auto.
    now apply (cl_threw _ _ HP).
  - apply (cl_revert _ _ HP _ _ i He Hs). now apply closed_run_task.
Qed.

Lemma closed_run es s : forallb ok es = true -> P s -> P (run es s).
Proof.
  revert s. induction es as [|e es IH]; intros s Hes Hs; simpl; [exact Hs|].
  simpl in Hes. apply andb_true_iff in Hes as [He Hes].
  apply IH; [exact Hes|]. now apply closed_step.
Qed.

End Closed.

Ltac by_closure H :=
  first [ now apply (cl_output _ _ H) | now apply (cl_park _ _ H)
        | now apply (cl_open _ _ H) | now apply (cl_unpark _ _ H)
        | now apply (cl_delivery _ _ H) | now apply (cl_now _ _ H)
        | now apply (cl_subscribe _ _ H) | now apply (cl_unsubscribe _ _ H)
        | now apply (cl_install _ _ H) | now apply (cl_add _ _ H)
        | now apply (cl_clear _ _ H) | now apply (cl_opened _ _ H)
        | now apply (cl_refused _ _ H) | now apply (cl_threw _ _ H)
        | solve [eapply (cl_revert _ _ H); eassumption] ].

Lemma closed_and ok (P Q : State -> Prop) :
  closed ok P -> closed ok Q -> closed ok (fun s => P s /\ Q s).
Proof.
  intros HP HQ.
  constructor; intros;
    repeat match goal with H : _ /\ _ |- _ => destruct H as [? ?] end;
    (split; [by_closure HP | by_closure HQ]).
Qed.

(** ** The singleton connection *)

Section Singleton.

Lemma lifecycle_closed : closed any_event lifecycle.
Proof.
  unfold lifecycle.
  constructor; intros; simpl; try assumption.
  - destruct (getDB_call_cases s) as [-> | (D & N & ->)]; [assumption|].
    simpl. rewrite N in H. destruct H as [H _]. split; [lia | discriminate].
  - rewrite H in H0. destruct H0 as [H0 _]. split; [exact H0 | reflexivity].
  - rewrite H in H0. destruct H0 as [H0 H1].
    split; [exact H0 | intros D; apply H1 in D; discriminate].
  - rewrite H0 in H1. destruct H1 as [H1 H2].
    split; [exact H1 | intros D; apply H2 in D; discriminate].
Qed.

Lemma promised_closed : closed any_event promised.
Proof.
  unfold promised.
  constructor; intros s; intros; simpl; try assumption; try discriminate.
  destruct (getDB_call_cases s) as [-> | (_ & _ & ->)];
    [assumption | discriminate].
Qed.

Lemma started_closed : closed any_event started.
Proof. apply closed_and; [apply lifecycle_closed | apply promised_closed]. Qed.

Lemma lifecycle_fresh db t : lifecycle (fresh db t).
Proof. split; [reflexivity | discriminate]. Qed.

Lemma forallb_any es : forallb any_event es = true.
Proof. induction es; auto. Qed.

Lemma run_app es1 es2 s : run (es1 ++ es2) s = run es2 (run es1 s).
Proof. apply fold_left_app. Qed.

Lemma started_after_initDB s : lifecycle s -> started (step EvInitDB s).
Proof.
  intros L. split.
  - now apply (closed_step _ _ lifecycle_closed).
  - unfold promised. simpl. unfold initDB.
    destruct (dbInstance s) eqn:D; simpl.
    + destruct L as [_ L]. rewrite (L D). discriminate.
    + destruct (initPromise s) eqn:E; simpl; [rewrite E|]; discriminate.
Qed.

Lemma init_failed_closed n : closed any_event (init_failed n).
Proof.
  unfold init_failed.
  constructor; intros s; intros; simpl; try assumption.
  - destruct (getDB_call_cases s) as [-> | (_ & N & _)]; [assumption|].
    destruct H as (_ & H & _). rewrite H in N. discriminate.
  - destruct H0 as (_ & H0 & _). rewrite H0 in H. discriminate.
  - destruct H0 as (_ & H0 & _). rewrite H0 in H. discriminate.
  - destruct H1 as (_ & H1 & _). rewrite H1 in H0. discriminate.
Qed.

Lemma open_onerror_fails event s :
  dbInstance s = false -> initPromise s = Some Pending ->
  init_failed (opens s) (open_onerror event s).
Proof.
  intros D E. unfold open_onerror. rewrite E.
  set (s1 := console_call ChError [VStr "IndexedDB error:"; event] s).
  assert (Q : quiet s s1) by apply quiet_console_call.
  assert (O : dbInstance s1 = false /\ opens s1 = opens s
              /\ initPromise s1 = Some Pending).
  { clearbody s1. induction Q; simpl; auto.
    destruct (getDB_call_cases s') as [-> | (_ & N & _)]; auto.
    destruct IHQ as (_ & _ & IH). rewrite IH in N. discriminate. }
  destruct O as (O1 & O2 & _). repeat split; simpl; assumption.
Qed.

Lemma initDB_in_a_row n db t :
  run (repeat EvInitDB (S n)) (fresh db t)
  = set_init false (Some Pending) 1 (fresh db t).
Proof.
  induction n as [|n IH]; [reflexivity|].
  change (repeat EvInitDB (S (S n))) with (EvInitDB :: repeat EvInitDB (S n)).
  rewrite repeat_cons, run_app, IH. reflexivity.
Qed.

End Singleton.

(** [C2] [initDB] with a connection returns a resolved promise and touches
    nothing; with an initialisation in flight (or settled) it returns the
    stored [initPromise] and touches nothing; whatever else happens on the
    page, [indexedDB.open] is called at most once, and exactly once in every
    run in which [initDB] is called, in particular when it is called any
    number of times in a row before the open request completes. *)
Theorem initDB_opens_exactly_once :
  (forall s p n,
      initDB (set_init true p n s) = (RetResolved, set_init true p n s))
  /\ (forall s p n,
         initDB (set_init false (Some p) n s)
         = (RetInitPromise, set_init false (Some p) n s))
  /\ (forall db t es, (opens (run es (fresh db t)) <= 1)%nat)
  /\ (forall db t es1 es2,
         opens (run (es1 ++ EvInitDB :: es2) (fresh db t)) = 1%nat)
  /\ (forall db t n,
         let s := run (repeat EvInitDB (S n)) (fresh db t) in
         opens s = 1%nat /\ initPromise s = Some Pending
         /\ dbInstance s = false
         /\ initDB s = (RetInitPromise, s)).
Proof.
  assert (A : forall db t es1 es2,
             started (run (es1 ++ EvInitDB :: es2) (fresh db t))).
  { intros db t es1 es2. rewrite run_app. simpl.
    apply (closed_run _ _ started_closed); [apply forallb_any|].
    apply started_after_initDB.
    apply (closed_run _ _ lifecycle_closed);
      [apply forallb_any | apply lifecycle_fresh]. }
  assert (B : forall s, started s -> opens s = 1%nat).
  { intros s [[O _] N]. unfold promised in N.
    destruct (initPromise s); [exact O | contradiction]. }
  repeat split.
  - intros db t es.
    destruct (closed_run _ _ lifecycle_closed es (fresh db t)
                (forallb_any es) (lifecycle_fresh db t)) as [O _].
    rewrite O. destruct (initPromise _); lia.
  - intros db t es1 es2. apply B, A.
  - rewrite initDB_in_a_row; reflexivity.
  - rewrite initDB_in_a_row; reflexivity.
  - rewrite initDB_in_a_row; reflexivity.
  - rewrite initDB_in_a_row; reflexivity.
Qed.

(** [C10] Once the open request of the first [initDB] has failed, no later
    event clears or replaces [initPromise] or opens the database again:
    [dbInstance] stays empty, [indexedDB.open] is not called a second time,
    and every insert, scan and clear, whether called later or already
    waiting, rejects with the reason of that failure. *)
Theorem failed_open_is_never_retried (s : State) (event : Value)
  (es : list Event) :
  dbInstance s = false ->
  initPromise s = Some Pending ->
  let s' := run es (step (EvOpenError event) s) in
  dbInstance s' = false
  /\ initPromise s' = Some (Rejected open_failure)
  /\ opens s' = opens s
  /\ (forall entry o,
         addLogEntry_settles entry o s' = Some (Reject open_failure))
  /\ (forall o, getAllLogs_settles o s' = Some (Reject open_failure))
  /\ (forall o, clearAllLogs_settles o s' = Some (Reject open_failure))
  /\ (forall i c op o,
         nth_error (pending s') i = Some (Tcaller c op) ->
         trace (step (EvRun i o) s')
         = trace s' ++ [Answered c (AError open_failure)]).
Proof.
  intros D E s'.
  assert (F : init_failed (opens s) s').
  { apply (closed_run _ _ (init_failed_closed (opens s)));
      [apply forallb_any | now apply open_onerror_fails]. }
  destruct F as (F1 & F2 & F3).
  assert (G : getDB_resume s' = Some (Reject open_failure)).
  { unfold getDB_resume. now rewrite F1, F2. }
  repeat split; try assumption.
  - intros entry o. unfold addLogEntry_settles. now rewrite G.
  - intros o. unfold getAllLogs_settles. now rewrite G.
  - intros o. unfold clearAllLogs_settles. now rewrite G.
  - intros i c op o Hi. cbn [step]. unfold run_task. rewrite Hi, G.
    destruct op; reflexivity.
Qed.

Lemma failed_open_is_never_retried_witness :
  let s' := run [EvCall 0 OpGetAll; EvInitDB; EvTick 5]
                (step (EvOpenError VNull) (step EvInitDB (fresh IDB.empty 0))) in
  dbInstance s' = false
  /\ opens s' = 1%nat
  /\ getAllLogs_settles Commit s' = Some (Reject open_failure)
  /\ trace (step (EvRun 0 Commit) s')
     = trace s' ++ [Answered 0 (AError open_failure)].
Proof.
  destruct (failed_open_is_never_retried
              (step EvInitDB (fresh IDB.empty 0)) VNull
              [EvCall 0%nat OpGetAll; EvInitDB; EvTick 5] eq_refl eq_refl)
    as (H1 & _ & H3 & _ & H5 & _ & H7).
  exact (conj H1 (conj H3 (conj (H5 Commit)
           (H7 0%nat 0%nat OpGetAll Commit eq_refl)))).
Defined.

(** ** Identifiers *)

Section Identifiers.






(** The observation [AddResolved] is made exactly when [addLogEntry]
    resolves, with the id it resolves to. *)
Lemma addLogEntry_issues entry g o s :
  trace (fst (addLogEntry entry g o s))
  = trace s ++ match snd (addLogEntry entry g o s) with
               | Resolve k => [AddResolved k]
               | Reject _ => []
               end.
Proof.
  unfold addLogEntry, IDB.add.
  destruct g; simpl; [|now rewrite app_nil_r].
  destruct o; simpl; [|now rewrite app_nil_r].
  destruct (keygen (idb s) >? max_key); simpl; [now rewrite app_nil_r|].
  reflexivity.
Qed.

End Identifiers.




(** Insert, clear, insert: the second insert gets the next id, not the
    first one again. *)
Example ids_across_clear :
  let s := run [EvCall 0 (OpAdd (draft 1 INFO "a" None []));
                EvOpenSuccess; EvRun 0 Commit;
                EvCall 1 OpClear; EvRun 0 Commit;
                EvCall 2 (OpAdd (draft 2 INFO "b" None [])); EvRun 0 Commit]
               (fresh IDB.empty 0) in
  issued (trace s) = [1; 2]
  /\ rows (idb s) = [(2, draft 2 INFO "b" None [])].
Proof. split; reflexivity. Qed.

(** ** Observers *)

Section Observers.

Lemma set_add_In x l ls : In x (set_add l ls) <-> In x ls \/ x = l.
Proof.
  unfold set_add. destruct (existsb (Nat.eqb l) ls) eqn:E.
  - split; [now left|]. intros [H | ->]; [exact H|].
    apply existsb_exists in E as (y & Hy & Hly).
    apply Nat.eqb_eq in Hly. now subst.
  - rewrite in_app_iff. simpl. intuition.
Qed.

Lemma set_delete_In x l ls : In x (set_delete l ls) <-> In x ls /\ x <> l.
Proof.
  unfold set_delete. rewrite filter_In, negb_true_iff, Nat.eqb_neq.
  intuition.
Qed.

Lemma set_delete_absent l ls : ~ In l ls -> set_delete l ls = ls.
Proof.
  unfold set_delete. induction ls as [|x ls IH]; intros H; simpl; [reflexivity|].
  destruct (Nat.eqb l x) eqn:E; simpl.
  - apply Nat.eqb_eq in E. subst. exfalso. apply H. now left.
  - rewrite IH; [reflexivity|]. intros Hin. apply H. now right.
Qed.

Lemma unsubscribe_absent l s :
  ~ In l (listeners s) -> Logger.unsubscribe l s = s.
Proof.
  intros H. unfold Logger.unsubscribe. rewrite (set_delete_absent _ _ H).
  now destruct s.
Qed.

Lemma notifications_app l a b :
  notifications l (a ++ b) = notifications l a ++ notifications l b.
Proof.
  induction a as [|o a IH]; simpl; [reflexivity|].
  destruct o as [| [|] l' logs | | |]; simpl; rewrite ?IH; try reflexivity.
  now destruct (Nat.eqb l' l).
Qed.

Lemma unsubscribed_closed l n0 : closed (no_resubscribe l) (unsubscribed l n0).
Proof.
  unfold unsubscribed.
  constructor; intros s; intros; simpl; try assumption.
  - now rewrite notifications_app, app_nil_r.
  - destruct (getDB_call_cases s) as [-> | (_ & _ & ->)]; assumption.
  - destruct H0 as [H1 H2]. split; [exact H1|].
    rewrite notifications_app, H2.
    destruct o as [| [|] l' logs | | |]; simpl in *;
      try contradiction; try apply app_nil_r.
    destruct (Nat.eqb l' l) eqn:E; [|apply app_nil_r].
    apply Nat.eqb_eq in E. subst. contradiction.
  - destruct H0 as [H1 H2]. split; [|exact H2].
    rewrite set_add_In. intros [Hin | ->]; [contradiction|].
    simpl in H. now rewrite Nat.eqb_refl in H.
  - destruct H as [H1 H2]. split; [|exact H2].
    rewrite set_delete_In. tauto.
  - now rewrite notifications_app, app_nil_r.
Qed.

Lemma single_install_closed : closed no_install single_install.
Proof.
  unfold single_install.
  constructor; intros s; intros; simpl; try assumption; try discriminate.
  destruct (getDB_call_cases s) as [-> | (_ & _ & ->)]; assumption.
Qed.

Lemma resume_saveLog_commit d s :
  keygen (idb s) <= max_key ->
  idb (resume (TsaveLog d) (Resolve tt) Commit s)
  = {| rows := rows (idb s) ++ [(keygen (idb s), clone_draft d)];
       keygen := keygen (idb s) + 1 |}.
Proof.
  intros Hmax. cbn [resume]. unfold addLogEntry, IDB.add.
  destruct (keygen (idb s) >? max_key) eqn:E.
  - apply Z.gtb_lt in E. lia.
  - cbn [db_onerror saveLog_resume]. unfold notifyListeners.
    rewrite (quiet_idb _ _ (quiet_parked _ _)). reflexivity.
Qed.

End Observers.

(** [C9] Once the handle returned by [subscribe(l)] has been called, [l] is
    out of the listener set, and in every continuation of the run in which
    [l] is not subscribed again no notification, of an insert, a clear or
    anything else, is delivered to [l]: the notifications [l] has received
    are the ones it had received before, no more.  Calling the handle again,
    then or later, changes nothing. *)
Theorem unsubscribed_listener_is_not_notified (l : Listener) (s : State)
  (es : list Event) :
  forallb (no_resubscribe l) es = true ->
  let s1 := step (EvUnsubscribe l) s in
  ~ In l (listeners s1)
  /\ ~ In l (listeners (run es s1))
  /\ notifications l (trace (run es s1)) = notifications l (trace s)
  /\ step (EvUnsubscribe l) s1 = s1
  /\ step (EvUnsubscribe l) (run es s1) = run es s1.
Proof.
  intros Hes s1.
  assert (U : unsubscribed l (notifications l (trace s)) s1).
  { split; [|reflexivity]. unfold s1. simpl. rewrite set_delete_In. tauto. }
  pose proof (closed_run _ _ (unsubscribed_closed l _) es s1 Hes U) as [V1 V2].
  destruct U as [U1 U2].
  repeat split; try assumption.
  - now apply unsubscribe_absent.
  - now apply unsubscribe_absent.
Qed.

Lemma unsubscribed_listener_is_not_notified_witness :
  let s := run [EvSubscribe 7; EvOpenSuccess; EvRun 0 Commit;
                EvInternalError "early" None None; EvRun 0 Commit;
                EvRun 0 Commit]
               (fresh IDB.empty 0) in
  let es := [EvInternalError "late" None None; EvRun 0 Commit;
             EvSubscribe 8; EvRun 0 Commit; EvClear; EvRun 0 Commit;
             EvRun 0 Commit; EvRun 0 Commit] in
  let s1 := step (EvUnsubscribe 7) s in
  ~ In 7%nat (listeners (run es s1))
  /\ notifications 7 (trace (run es s1))
     = [[with_id 1 (draft 0 ERROR "early" None [])]]
  /\ List.length (notifications 8 (trace (run es s1))) = 2%nat.
Proof.
  pose proof (unsubscribed_listener_is_not_notified 7%nat
    (run [EvSubscribe 7%nat; EvOpenSuccess; EvRun 0 Commit;
          EvInternalError "early" None None; EvRun 0 Commit; EvRun 0 Commit]
         (fresh IDB.empty 0))
    [EvInternalError "late" None None; EvRun 0 Commit;
     EvSubscribe 8%nat; EvRun 0 Commit; EvClear; EvRun 0 Commit;
     EvRun 0 Commit; EvRun 0 Commit] eq_refl) as (_ & H2 & H3 & _).
  exact (conj H2 (conj H3 eq_refl)).
Defined.

(** The first delivery of [subscribe] is not tied to the listener set: it
    arrives even when the handle was called before the scan completed. *)
Example initial_delivery_after_unsubscribe :
  trace (run [EvSubscribe 7; EvUnsubscribe 7; EvOpenSuccess; EvRun 0 Commit]
             (fresh IDB.empty 0))
  = [Invoke Initial 7%nat []].
Proof. reflexivity. Qed.

(** [C8] [subscribe(l)] puts [l] in the listener set and delivers nothing
    during the call: the scan it starts is parked.  When that scan
    completes on an open store, [l] is called with the scan's result, the
    whole store newest first, whether or not anything was written in
    between; on a page where nothing else happens that is the store as it
    was at the call, and the empty sequence for an empty store.  The handle
    it returns takes [l] out of the set. *)
Theorem subscribe_delivers_current_logs (l : Listener) (s : State) :
  let s1 := step (EvSubscribe l) s in
  In l (listeners s1)
  /\ trace s1 = trace s
  /\ pending s1 = pending s ++ [Tsubscribe l]
  /\ (forall s2 i,
         nth_error (pending s2) i = Some (Tsubscribe l) ->
         dbInstance s2 = true ->
         trace (step (EvRun i Commit) s2)
         = trace s2 ++ [Invoke Initial l (cursor_prev (idb s2))])
  /\ (dbInstance s = true ->
      trace (step (EvRun (List.length (pending s)) Commit) s1)
      = trace s ++ [Invoke Initial l (cursor_prev (idb s))])
  /\ (forall db t,
         trace (run [EvSubscribe l; EvOpenSuccess; EvRun 0 Commit] (fresh db t))
         = [Invoke Initial l (cursor_prev db)])
  /\ (forall t,
         trace (run [EvSubscribe l; EvOpenSuccess; EvRun 0 Commit]
                    (fresh IDB.empty t))
         = [Invoke Initial l []])
  /\ ~ In l (listeners (step (EvUnsubscribe l) s1)).
Proof.
  intros s1.
  assert (Q : quiet (set_listeners (set_add l (listeners s)) s) s1)
    by apply quiet_parked.
  assert (R : forall s2 i,
             nth_error (pending s2) i = Some (Tsubscribe l) ->
             dbInstance s2 = true ->
             trace (step (EvRun i Commit) s2)
             = trace s2 ++ [Invoke Initial l (cursor_prev (idb s2))]).
  { intros s2 i Hi D. cbn [step]. unfold run_task. rewrite Hi.
    unfold getDB_resume. rewrite D. reflexivity. }
  assert (Hp : pending s1 = pending s ++ [Tsubscribe l])
    by (unfold s1; cbn [step]; unfold Logger.subscribe; now rewrite park_pending).
  assert (Ht : trace s1 = trace s)
    by (unfold s1; cbn [step]; unfold Logger.subscribe; now rewrite park_trace).
  split; [|split; [|split; [|split; [|split; [|split; [|split]]]]]].
  - rewrite (quiet_listeners _ _ Q). simpl. apply set_add_In. now right.
  - exact Ht.
  - exact Hp.
  - exact R.
  - intros D. rewrite R.
    + rewrite Ht. now rewrite (quiet_idb _ _ Q).
    + rewrite Hp. rewrite nth_error_app2 by lia.
      now rewrite Nat.sub_diag.
    + now rewrite (quiet_dbInstance _ _ Q).
  - reflexivity.
  - reflexivity.
  - simpl. rewrite set_delete_In. tauto.
Qed.

Lemma subscribe_delivers_current_logs_witness :
  let s := run [EvCall 0 (OpAdd (draft 5 INFO "first" None []));
                EvOpenSuccess; EvRun 0 Commit;
                EvCall 1 (OpAdd (draft 9 WARN "second" None []));
                EvRun 0 Commit] (fresh IDB.empty 0) in
  trace (run [EvSubscribe 3; EvRun 0 Commit] s)
  = trace s ++ [Invoke Initial 3%nat
                  [with_id 2 (draft 9 WARN "second" None []);
                   with_id 1 (draft 5 INFO "first" None [])]].
Proof.
  pose proof (subscribe_delivers_current_logs 3%nat
    (run [EvCall 0 (OpAdd (draft 5 INFO "first" None []));
          EvOpenSuccess; EvRun 0 Commit;
          EvCall 1 (OpAdd (draft 9 WARN "second" None []));
          EvRun 0 Commit] (fresh IDB.empty 0)))
    as (_ & _ & _ & _ & H & _).
  exact (H eq_refl).
Defined.

(** [C6] (as amended) [initGlobalLogger] has no guard; [index.tsx] calls it
    once.  After that one call, and as long as it is not called again, the
    console holds one interceptor per channel, and a call of [console.log],
    [console.warn] or [console.error] hands exactly one entry to [saveLog],
    which the store, when it commits, keeps as exactly one record, the
    structured clone of the entry. *)
Theorem one_install_one_record_per_call (db : ObjectStore) (t : Z)
  (es : list Event) (c : Chan) (args : list Value) :
  forallb no_install es = true ->
  let s := run es (step EvInstall (fresh db t)) in
  console s = installed_once
  /\ (List.length (captured c args s) <= 1)%nat
  /\ (In c [ChLog; ChWarn; ChError] ->
      exists d,
        captured c args s = [TsaveLog d]
        /\ forall s2, keygen (idb s2) <= max_key ->
             rows (idb (resume (TsaveLog d) (Resolve tt) Commit s2))
             = rows (idb s2) ++ [(keygen (idb s2), clone_draft d)]).
Proof.
  intros Hes s.
  assert (K : console s = installed_once).
  { apply (closed_run _ _ single_install_closed); [exact Hes | reflexivity]. }
  pose proof (captured_installed_once c args s K) as Hc.
  split; [exact K | split].
  - rewrite Hc. destruct c; simpl; lia.
  - intros Hin.
    assert (E : exists d, captured c args s = [TsaveLog d]).
    { rewrite Hc. destruct c; eauto.
      simpl in Hin. intuition discriminate. }
    destruct E as [d Hd]. exists d. split; [exact Hd|].
    intros s2 Hmax. now rewrite resume_saveLog_commit.
Qed.

Lemma one_install_one_record_per_call_witness :
  let s := run [EvSubscribe 1; EvOpenSuccess; EvConsole ChWarn [VStr "w"]]
               (step EvInstall (fresh IDB.empty 0)) in
  (List.length (captured ChError [boom] s) <= 1)%nat.
Proof.
  pose proof (one_install_one_record_per_call IDB.empty 0
    [EvSubscribe 1%nat; EvOpenSuccess; EvConsole ChWarn [VStr "w"]]
    ChError [boom] eq_refl) as (_ & H & _).
  exact H.
Defined.

(** [C6] as stated fails: nothing stops a second [initGlobalLogger], and
    after it one [console.log] stores two records. *)
Lemma second_install_duplicates_records :
  ~ (forall n,
       (List.length
          (rows (idb (run (repeat EvInstall n
                           ++ [EvConsole ChLog [VStr "x"]; EvOpenSuccess;
                               EvRun 0 Commit; EvRun 0 Commit])
                          (fresh IDB.empty 0)))) <= 1)%nat).
Proof.
  intros H. specialize (H 2%nat). vm_compute in H. lia.
Qed.

(** What the second installation leaves in the console. *)
Example console_after_two_installs :
  console (run [EvInstall; EvInstall] (fresh IDB.empty 0))
  = wrap installed_once
  /\ captured ChLog [VStr "x"] (run [EvInstall; EvInstall] (fresh IDB.empty 0))
     = [TsaveLog (draft 0 INFO "x" None []);
        TsaveLog (draft 0 INFO "x" None [])].
Proof. split; reflexivity. Qed.

(** [C3] A failed re-read in [notifyListeners] is reported with
    [console.warn], which after [initGlobalLogger] is the interceptor: the
    report goes back into [saveLog].  Here one [console.log("x")] is stored,
    the re-read fails with [e], and the failure comes back as two new
    entries to save, the warning of [notifyListeners] and the error that
    [dbInstance.onerror] prints with [console.error]; when the store takes
    the warning and the next re-read fails too, there is a third. *)
Theorem notify_failure_reenters_interception (e : Value) :
  let s := run [EvInstall; EvConsole ChLog [VStr "x"]; EvOpenSuccess;
                EvRun 0 Commit] (fresh IDB.empty 0) in
  let s' := step (EvRun 0 (Abort e)) s in
  let s'' := run [EvRun 0 Commit; EvRun 1 (Abort e)] s' in
  console s = installed_once
  /\ pending s = [TnotifyListeners]
  /\ pending s'
     = [TsaveLog (draft 0 WARN "Failed to notify listeners" None [e]);
        TsaveLog (draft 0 ERROR "Database error:" None [e])]
  /\ trace s'
     = trace s ++ [Output ChWarn [VStr "Failed to notify listeners"; e];
                   Output ChError [VStr "Database error:"; e]]
  /\ map (fun r => d_message (snd r)) (rows (idb s''))
     = ["x"; "Failed to notify listeners"]%string
  /\ pending s''
     = [TsaveLog (draft 0 ERROR "Database error:" None [e]);
        TsaveLog (draft 0 WARN "Failed to notify listeners" None [e]);
        TsaveLog (draft 0 ERROR "Database error:" None [e])].
Proof. repeat split. Qed.

(** * Further properties *)

(** ** Resuming the task parked last *)

Lemma getDB_call_open s : dbInstance s = true -> getDB_call s = s.
Proof. intros D. unfold getDB_call. now rewrite D. Qed.

Lemma getDB_call_promised s : initPromise s <> None -> getDB_call s = s.
Proof.
  intros N. destruct (getDB_call_cases s) as [E | (_ & E & _)];
    [exact E | contradiction].
Qed.

Lemma park_open t s :
  dbInstance s = true -> park t s = set_pending (pending s ++ [t]) s.
Proof. intros D. unfold park. now rewrite getDB_call_open. Qed.

Lemma park_promised t s :
  initPromise s <> None -> park t s = set_pending (pending s ++ [t]) s.
Proof. intros N. unfold park. now rewrite getDB_call_promised. Qed.

Lemma nth_error_snoc {A : Type} (l : list A) x :
  nth_error (l ++ [x]) (List.length l) = Some x.
Proof. induction l; simpl; auto. Qed.

Lemma remove_nth_snoc {A : Type} (l : list A) x :
  remove_nth (List.length l) (l ++ [x]) = l.
Proof. induction l; simpl; [reflexivity | now f_equal]. Qed.

Lemma set_pending_twice q q' s : set_pending q (set_pending q' s) = set_pending q s.
Proof. reflexivity. Qed.

Lemma set_pending_same s : set_pending (pending s) s = s.
Proof. now destruct s. Qed.

(** The environment resumes the task parked last. *)
Lemma step_run_last q t g o s :
  getDB_resume s = Some g ->
  step (EvRun (List.length q) o) (set_pending (q ++ [t]) s)
  = resume t g o (set_pending q s).
Proof.
  intros G. cbn [step]. unfold run_task. cbn [pending set_pending].
  rewrite nth_error_snoc, remove_nth_snoc.
  change (getDB_resume (set_pending (q ++ [t]) s)) with (getDB_resume s).
  now rewrite G.
Qed.

Lemma getDB_resume_open s : dbInstance s = true -> getDB_resume s = Some (Resolve tt).
Proof. intros D. unfold getDB_resume. now rewrite D. Qed.

Lemma forEach_broadcasts logs s :
  forEach logs s = with_trace (trace s ++ broadcast logs (listeners s)) s.
Proof.
  unfold forEach, broadcast.
  assert (G : forall ls s',
             fold_left (fun s'' l => emit (Invoke Notification l logs) s'') ls s'
             = with_trace (trace s' ++ map (fun l => Invoke Notification l logs) ls) s').
  { induction ls as [|l ls IH]; intros s'; simpl.
    - rewrite app_nil_r. now destruct s'.
    - rewrite IH. unfold with_trace. simpl. now rewrite <- app_assoc. }
  apply G.
Qed.

(** ** Clearing, inserting and reading back *)

(** [X1] [Logger.clear] on an open store: when the clear and the re-read it
    triggers both commit, the store is empty, the key generator is where it
    was, and every registered listener has been called once, in
    registration order, with the empty list. *)
Theorem clear_empties_store_and_views (s : State) :
  dbInstance s = true ->
  let n := List.length (pending s) in
  let s' := run [EvClear; EvRun n Commit; EvRun n Commit] s in
  rows (idb s') = []
  /\ keygen (idb s') = keygen (idb s)
  /\ trace s' = trace s ++ broadcast [] (listeners s)
  /\ pending s' = pending s
  /\ listeners s' = listeners s.
Proof.
  intros D n s'. unfold s', n. cbn [run fold_left].
  change (step EvClear s) with (park Tclear s).
  rewrite (park_open _ _ D).
  rewrite (step_run_last _ _ _ _ _ (getDB_resume_open _ D)).
  rewrite set_pending_same.
  cbn [resume clearAllLogs IDB.clear clear_resume db_onerror].
  unfold notifyListeners.
  rewrite park_open by exact D.
  cbn [pending set_idb].
  rewrite (step_run_last (pending s) TnotifyListeners (Resolve tt)) by
    (apply getDB_resume_open; exact D).
  cbn [resume getAllLogs IDB.scan notifyListeners_resume db_onerror].
  rewrite forEach_broadcasts.
  repeat split.
Qed.

Lemma clear_empties_store_and_views_witness :
  let s := run [EvSubscribe 4; EvSubscribe 9; EvOpenSuccess;
                EvInternalError "kept" None None; EvRun 2 Commit]
               (fresh IDB.empty 0) in
  let s' := run [EvClear; EvRun 3 Commit; EvRun 3 Commit] s in
  rows (idb s') = []
  /\ keygen (idb s') = 2
  /\ trace s' = trace s ++ [Invoke Notification 4%nat [];
                            Invoke Notification 9%nat []].
Proof.
  pose proof (clear_empties_store_and_views
    (run [EvSubscribe 4%nat; EvSubscribe 9%nat; EvOpenSuccess;
          EvInternalError "kept" None None; EvRun 2 Commit]
         (fresh IDB.empty 0)) eq_refl) as (H1 & H2 & H3 & _).
  exact (conj H1 (conj H2 H3)).
Defined.



Lemma index_records_sorted_id l :
  StronglySorted index_before l -> fold_right index_insert [] l = l.
Proof.
  induction 1 as [|x l Hl IH Hx]; simpl; [reflexivity|].
  rewrite IH. destruct l as [|y l]; simpl; [reflexivity|].
  inversion Hx as [|? ? Hxy _]; subst.
  unfold index_before in Hxy. now rewrite Hxy.
Qed.



(** [X3] A store whose records were inserted with timestamps that never
    decrease is read back in exactly the reverse of the insertion order. *)
Theorem chronological_store_reads_back_reversed (db : ObjectStore) :
  StronglySorted
    (fun a b => fst a < fst b /\ d_timestamp (snd a) <= d_timestamp (snd b))
    (rows db) ->
  cursor_prev db = rev (map (fun r => with_id (fst r) (snd r)) (rows db)).
Proof.
  intros H. unfold cursor_prev, index_records.
  rewrite index_records_sorted_id; [now rewrite map_rev|].
  eapply StronglySorted_impl; [|exact H].
  intros a b [Hk Ht]. apply index_before_spec. lia.
Qed.

Lemma chronological_store_reads_back_reversed_witness :
  let a := draft 10 INFO "T1" None [] in
  let b := draft 20 WARN "T2" None [] in
  let c := draft 20 ERROR "T3" None [] in
  cursor_prev {| rows := [(1, a); (2, b); (5, c)]; keygen := 6 |}
  = [with_id 5 c; with_id 2 b; with_id 1 a].
Proof.
  refine (chronological_store_reads_back_reversed
            {| rows := [(1, draft 10 INFO "T1" None []);
                        (2, draft 20 WARN "T2" None []);
                        (5, draft 20 ERROR "T3" None [])];
               keygen := 6 |} _).
  repeat constructor; simpl; lia.
Defined.

Lemma keys_closed : closed any_event keys_invariant.
Proof.
  unfold keys_invariant.
  constructor; intros s; intros; simpl; try assumption.
  - destruct (getDB_call_cases s) as [-> | (_ & _ & ->)]; assumption.
  - destruct H as [H1 H2]. rewrite map_app. simpl. split.
    + apply NoDup_app; [exact H1 | repeat constructor; easy |].
      intros k Hk [<- | []].
      apply in_map_iff in Hk as (r & Hr & Hin).
      rewrite Forall_forall in H2. apply H2 in Hin. lia.
    + apply Forall_app. split.
      * eapply Forall_impl; [|exact H2]. simpl. intros; lia.
      * repeat constructor. simpl. lia.
  - split; constructor.
Qed.

(** [X4] On a page loaded over a store with distinct keys, whatever
    happens, every scan returns records with pairwise distinct ids, one per
    stored record. *)
Theorem scanned_ids_are_distinct (db : ObjectStore) (t : Z) (es : list Event) :
  store_wf db = true ->
  NoDup (map fst (rows db)) ->
  let s := run es (fresh db t) in
  NoDup (map id (cursor_prev (idb s)))
  /\ List.length (cursor_prev (idb s)) = List.length (rows (idb s)).
Proof.
  intros W N s.
  assert (K : keys_invariant s).
  { apply (closed_run _ _ keys_closed); [apply forallb_any|].
    split; [exact N|]. simpl.
    unfold store_wf in W. rewrite forallb_forall in W.
    apply Forall_forall. intros r Hr. now apply Z.ltb_lt, W. }
  destruct K as [K _]. split.
  - eapply Permutation_NoDup; [|exact K].
    rewrite (Permutation_map id (cursor_prev_perm (idb s))).
    rewrite map_map. reflexivity.
  - rewrite (Permutation_length (cursor_prev_perm (idb s))). apply length_map.
Qed.

Lemma scanned_ids_are_distinct_witness :
  let s := run [EvCall 0 (OpAdd (draft 5 INFO "a" None [])); EvOpenSuccess;
                EvRun 0 Commit; EvCall 0 (OpAdd (draft 5 INFO "a" None []));
                EvRun 0 Commit]
               (fresh {| rows := [(3, draft 1 WARN "old" None [])];
                         keygen := 8 |} 0) in
  NoDup (map id (cursor_prev (idb s))).
Proof.
  refine (proj1 (scanned_ids_are_distinct
    {| rows := [(3, draft 1 WARN "old" None [])]; keygen := 8 |} 0
    [EvCall 0 (OpAdd (draft 5 INFO "a" None [])); EvOpenSuccess;
     EvRun 0 Commit; EvCall 0 (OpAdd (draft 5 INFO "a" None []));
     EvRun 0 Commit] eq_refl _)).
  repeat constructor; simpl; tauto.
Defined.

(** ** Notification *)

Lemma tidy_closed : closed any_event tidy.
Proof.
  unfold tidy.
  constructor; intros s; intros; simpl; try assumption.
  - destruct (getDB_call_cases s) as [-> | (_ & _ & ->)]; assumption.
  - unfold set_add. destruct (existsb (Nat.eqb l) (listeners s)) eqn:E;
      [assumption|].
    apply NoDup_app; [assumption | repeat constructor; easy |].
    intros x Hx [<- | []].
    assert (X : existsb (Nat.eqb l) (listeners s) = true);
      [|rewrite X in E; discriminate].
    apply existsb_exists. exists l. split; [exact Hx | apply Nat.eqb_refl].
  - apply NoDup_filter. assumption.
Qed.

Lemma notifications_broadcast l logs ls :
  NoDup ls ->
  notifications l (broadcast logs ls)
  = if existsb (Nat.eqb l) ls then [logs] else [].
Proof.
  induction 1 as [|x ls Hx Hls IH]; simpl; [reflexivity|].
  rewrite IH. rewrite (Nat.eqb_sym l x).
  destruct (Nat.eqb x l) eqn:E; simpl; [|reflexivity].
  apply Nat.eqb_eq in E. subst x.
  destruct (existsb (Nat.eqb l) ls) eqn:X; [|reflexivity].
  apply existsb_exists in X as (y & Hy & Hly).
  apply Nat.eqb_eq in Hly. subst y. contradiction.
Qed.

(** [X5] However often and in whatever order callbacks subscribe and
    unsubscribe, the listener set never holds a callback twice, so a re-read
    that succeeds calls every registered callback exactly once with the
    list read, and calls no callback that is not registered. *)
Theorem each_listener_is_notified_once (db : ObjectStore) (t : Z)
  (es : list Event) (logs : list LogEntry) (l : Listener) :
  let s := run es (fresh db t) in
  NoDup (listeners s)
  /\ notifications l (trace (notifyListeners_resume (Resolve logs) s))
     = notifications l (trace s)
       ++ (if existsb (Nat.eqb l) (listeners s) then [logs] else []).
Proof.
  intros s.
  assert (N : NoDup (listeners s)).
  { apply (closed_run _ _ tidy_closed); [apply forallb_any | constructor]. }
  split; [exact N|].
  cbn [notifyListeners_resume]. rewrite forEach_broadcasts.
  cbn [with_trace trace]. rewrite notifications_app.
  now rewrite notifications_broadcast.
Qed.

Lemma console_call_installed_once c args d s :
  console s = installed_once ->
  dbInstance s = true \/ initPromise s <> None ->
  intercepted c args (now s) = Some d ->
  console_call c args s
  = set_pending (pending s ++ [TsaveLog d]) (emit (Output c args) s).
Proof.
  intros K N I. unfold console_call. rewrite K.
  assert (P : forall t s0,
             dbInstance s0 = dbInstance s -> initPromise s0 = initPromise s ->
             park t s0 = set_pending (pending s0 ++ [t]) s0).
  { intros t s0 E1 E2. destruct N as [N | N].
    - apply park_open. now rewrite E1.
    - apply park_promised. now rewrite E2. }
  destruct c; cbn in I; try discriminate; injection I as <-;
    cbn [slot installed_once c_log c_warn c_error call]; unfold saveLog;
    now rewrite P.
Qed.



(** ** When the database cannot be opened *)

Lemma getDB_resume_failed n s :
  init_failed n s -> getDB_resume s = Some (Reject open_failure).
Proof. intros (D & P & _). unfold getDB_resume. now rewrite D, P. Qed.

Lemma failed_is_promised n s : init_failed n s -> initPromise s <> None.
Proof. intros (_ & P & _). rewrite P. discriminate. Qed.

(** [X7] With the open refused and the interceptors installed once, a
    console call still prints on its original channel, and its [saveLog]
    ends in exactly one report on the original error channel: nothing is
    stored, nothing stays suspended, nothing is opened again, so the next
    call meets the same state. *)
Theorem store_down_leaves_console_only (n : nat) (c : Chan)
  (args : list Value) (d : LogDraft) (o : Outcome) (s : State) :
  init_failed n s ->
  console s = installed_once ->
  intercepted c args (now s) = Some d ->
  let s' := run [EvConsole c args; EvRun (List.length (pending s)) o] s in
  s' = with_trace
         (trace s ++ [Output c args;
                      Output ChError [VStr "Failed to save log to DB";
                                      open_failure]]) s.
Proof.
  intros F K I s'. unfold s'. cbn [run fold_left].
  change (step (EvConsole c args) s) with (console_call c args s).
  rewrite (console_call_installed_once c args d s K
             (or_intror (failed_is_promised _ _ F)) I).
  rewrite (step_run_last _ _ (Reject open_failure)) by
    (exact (getDB_resume_failed _ _ F)).
  cbn [resume addLogEntry saveLog_resume db_onerror].
  cbn [console set_pending emit]. rewrite K.
  cbn [_originalError installed_once call].
  unfold emit, with_trace, set_pending. cbn.
  now rewrite <- app_assoc.
Qed.

Lemma store_down_leaves_console_only_witness :
  let s := run [EvInstall; EvInitDB; EvOpenError VNull; EvRun 0 Commit]
               (fresh IDB.empty 0) in
  run [EvConsole ChLog [VStr "x"]; EvRun 0 Commit] s
  = with_trace
      (trace s ++ [Output ChLog [VStr "x"];
                   Output ChError [VStr "Failed to save log to DB";
                                   open_failure]]) s.
Proof.
  exact (store_down_leaves_console_only 1 ChLog [VStr "x"]
           (draft 0 INFO "x" None []) Commit
           (run [EvInstall; EvInitDB; EvOpenError VNull; EvRun 0 Commit]
                (fresh IDB.empty 0))
           (conj eq_refl (conj eq_refl eq_refl)) eq_refl eq_refl).
Defined.

(** [X8] [Logger.internalError] on a page where [initGlobalLogger] never
    ran: when the insert is refused because the database did not open,
    [saveLog] finds no [_originalError] and drops the failure; the page is
    exactly as it was before the call. *)
Theorem unreported_failure_without_interceptors (n : nat) (msg : string)
  (stack : option string) (meta : option Value) (o : Outcome) (s : State) :
  init_failed n s ->
  _originalError (console s) = None ->
  run [EvInternalError msg stack meta; EvRun (List.length (pending s)) o] s = s.
Proof.
  intros F K. cbn [run fold_left].
  change (step (EvInternalError msg stack meta) s)
    with (saveLog ERROR msg stack meta s).
  unfold saveLog. rewrite (park_promised _ _ (failed_is_promised _ _ F)).
  rewrite (step_run_last _ _ (Reject open_failure)) by
    (exact (getDB_resume_failed _ _ F)).
  cbn [resume addLogEntry saveLog_resume db_onerror].
  cbn [console set_pending]. rewrite K.
  apply set_pending_same.
Qed.

Lemma unreported_failure_without_interceptors_witness :
  let s := run [EvInitDB; EvOpenError VNull] (fresh IDB.empty 0) in
  run [EvInternalError "lost" None None; EvRun 0 Commit] s = s.
Proof.
  exact (unreported_failure_without_interceptors 1 "lost" None None Commit
           (run [EvInitDB; EvOpenError VNull] (fresh IDB.empty 0))
           (conj eq_refl (conj eq_refl eq_refl)) eq_refl).
Defined.

Lemma connected_closed : closed any_event connected.
Proof.
  unfold connected.
  constructor; intros s; intros; simpl in *;
    try (now auto); try discriminate.
  destruct (getDB_call_cases s) as [E | (_ & _ & E)]; rewrite E in *;
    [auto | discriminate].
Qed.

Lemma settled_right_closed : closed open_returns settled_right.
Proof.
  unfold settled_right.
  constructor; intros s; intros; simpl; try assumption; try reflexivity;
    try discriminate.
  destruct (getDB_call_cases s) as [-> | (_ & _ & ->)]; [assumption | exact I].
Qed.

(** [X9] On any page, whatever has happened, a fulfilled [initPromise]
    comes with the connection, so the error "Database not initialized" of
    [getDB] is never thrown: an operation waiting in [getDB] is either still
    waiting for the open request, or goes on with the connection, or is
    rejected with what [initPromise] was rejected with.  That is the failure
    of the open request, unless [indexedDB.open] itself threw: then it is
    the exception thrown. *)
Theorem getDB_never_finds_a_missing_connection (db : ObjectStore) (t : Z)
  (es : list Event) :
  let s := run es (fresh db t) in
  (initPromise s = Some Fulfilled -> dbInstance s = true)
  /\ (getDB_resume s = None
      \/ getDB_resume s = Some (Resolve tt)
      \/ exists r, initPromise s = Some (Rejected r)
                   /\ getDB_resume s = Some (Reject r))
  /\ (forallb open_returns es = true ->
      getDB_resume s = None
      \/ getDB_resume s = Some (Resolve tt)
      \/ getDB_resume s = Some (Reject open_failure)).
Proof.
  intros s.
  assert (C : connected s).
  { apply (closed_run _ _ connected_closed); [apply forallb_any|].
    intros H. discriminate H. }
  split; [exact C|]. split.
  - unfold connected in C. unfold getDB_resume.
    destruct (dbInstance s); [auto|].
    destruct (initPromise s) as [[| |r]|]; auto.
    + specialize (C eq_refl). discriminate.
    + right. right. exists r. auto.
  - intros Hes.
    assert (R : settled_right s).
    { apply (closed_run _ _ settled_right_closed); [exact Hes | exact I]. }
    unfold settled_right in R. unfold getDB_resume.
    destruct (dbInstance s); [auto|].
    destruct (initPromise s) as [[| |r]|]; auto; [discriminate | subst r; auto].
Qed.

Lemma getDB_never_finds_a_missing_connection_witness :
  let s := run [EvCall 0 OpGetAll; EvOpenError VNull] (fresh IDB.empty 0) in
  getDB_resume s = None
  \/ getDB_resume s = Some (Resolve tt)
  \/ getDB_resume s = Some (Reject open_failure).
Proof.
  pose proof (getDB_never_finds_a_missing_connection IDB.empty 0
    [EvCall 0%nat OpGetAll; EvOpenError VNull]) as (_ & _ & H).
  exact (H eq_refl).
Defined.

(** [indexedDB.open] throws inside the executor of [initPromise]: the
    operations are rejected with the exception, not with the failure of an
    open request. *)
Example open_throws_in_the_executor :
  let denied := VError "SecurityError" "The operation is insecure." None in
  let s := run [EvCall 0 OpGetAll; EvOpenThrew denied] (fresh IDB.empty 0) in
  initPromise s = Some (Rejected denied)
  /\ getDB_resume s = Some (Reject denied)
  /\ opens s = 1%nat.
Proof. repeat split. Qed.

(** ** Installing more than once *)

Lemma console_after_installs n db t :
  console (run (repeat EvInstall n) (fresh db t)) = installed n.
Proof.
  induction n as [|n IH]; [reflexivity|].
  change (repeat EvInstall (S n)) with (EvInstall :: repeat EvInstall n).
  rewrite repeat_cons, run_app. cbn [run fold_left step].
  unfold initGlobalLogger.
  rewrite (quiet_console _ _ (quiet_console_call _ _ _)).
  cbn [console set_console]. rewrite IH. reflexivity.
Qed.

Lemma parked_after_call f args s :
  now (call f args s) = now s.
Proof. apply quiet_now, quiet_call. Qed.

Lemma saveLog_parks lv msg stack meta s :
  pending (saveLog lv msg stack meta s)
  = pending s ++ [TsaveLog {| d_timestamp := now s; d_level := lv;
                              d_message := msg; d_stackTrace := stack;
                              d_metadata := meta |}]
  /\ trace (saveLog lv msg stack meta s) = trace s.
Proof. unfold saveLog. now rewrite park_pending, park_trace. Qed.

Lemma nested_interceptors n c args d s :
  intercepted c args (now s) = Some d ->
  pending (call (slot c (installed n)) args s)
  = pending s ++ repeat (TsaveLog d) n
  /\ trace (call (slot c (installed n)) args s) = trace s ++ [Output c args].
Proof.
  intros I. induction n as [|n [IHp IHt]].
  - destruct c; cbn; now rewrite ?app_nil_r.
  - assert (R : repeat (TsaveLog d) (S n) = repeat (TsaveLog d) n ++ [TsaveLog d])
      by (cbn [repeat]; apply repeat_cons).
    rewrite R, app_assoc, <- IHp, <- IHt.
    destruct c; cbn in I; try discriminate; injection I as <-;
      change (installed (S n)) with (wrap (installed n));
      cbn [slot wrap c_log c_warn c_error call];
      match goal with
      | |- context [saveLog ?lv ?m ?st ?mt ?s1] =>
          destruct (saveLog_parks lv m st mt s1) as [Hp Ht]; rewrite Hp, Ht
      end;
      (rewrite parked_after_call; split; reflexivity).
Qed.

(** [X10] [initGlobalLogger] stacks: after [n] calls on a fresh page each
    console slot holds [n] nested interceptors, and one call of
    [console.log], [console.warn] or [console.error] prints once on the
    original channel and hands [n] copies of the same entry to [saveLog]. *)
Theorem every_installation_adds_a_copy (n : nat) (db : ObjectStore) (t : Z)
  (c : Chan) (args : list Value) (d : LogDraft) :
  intercepted c args t = Some d ->
  let s := run (repeat EvInstall n) (fresh db t) in
  console s = installed n
  /\ captured c args s = repeat (TsaveLog d) n
  /\ trace (console_call c args s) = trace s ++ [Output c args].
Proof.
  intros I s.
  assert (K : console s = installed n) by apply console_after_installs.
  assert (T : now s = t).
  { unfold s. clear. induction n as [|n IH]; [reflexivity|].
    change (repeat EvInstall (S n)) with (EvInstall :: repeat EvInstall n).
    rewrite repeat_cons, run_app. cbn [run fold_left step].
    unfold initGlobalLogger.
    now rewrite (quiet_now _ _ (quiet_console_call _ _ _)). }
  rewrite <- T in I.
  destruct (nested_interceptors n c args d s I) as [Hp Ht].
  split; [exact K|]. unfold captured, console_call. rewrite K.
  split; [|exact Ht].
  rewrite Hp. apply skipn_length_app.
Qed.

Lemma every_installation_adds_a_copy_witness :
  captured ChError [boom] (run (repeat EvInstall 3) (fresh IDB.empty 7))
  = [TsaveLog (draft 7 ERROR "boom" (Some "at foo()"%string) []);
     TsaveLog (draft 7 ERROR "boom" (Some "at foo()"%string) []);
     TsaveLog (draft 7 ERROR "boom" (Some "at foo()"%string) [])].
Proof.
  exact (proj1 (proj2 (every_installation_adds_a_copy 3 IDB.empty 7 ChError
                         [boom] (draft 7 ERROR "boom" (Some "at foo()"%string) [])
                         eq_refl))).
Defined.

Lemma nth_error_middle {A : Type} (q r : list A) x :
  nth_error (q ++ x :: r) (List.length q) = Some x.
Proof. induction q; simpl; auto. Qed.

Lemma remove_nth_middle {A : Type} (q r : list A) x :
  remove_nth (List.length q) (q ++ x :: r) = q ++ r.
Proof. induction q; simpl; [reflexivity | now f_equal]. Qed.

Lemma failure_report_is_saved_again n q d r o s :
  init_failed n s ->
  console s = installed 2 ->
  pending s = q ++ TsaveLog d :: r ->
  let report := [VStr "Failed to save log to DB"; open_failure] in
  let s1 := step (EvRun (List.length q) o) s in
  init_failed n s1
  /\ console s1 = installed 2
  /\ pending s1
     = q ++ r ++ [TsaveLog {| d_timestamp := now s; d_level := ERROR;
                              d_message := "Failed to save log to DB";
                              d_stackTrace := None;
                              d_metadata := Some (VArray [open_failure]) |}]
  /\ trace s1 = trace s ++ [Output ChError report]
  /\ idb s1 = idb s.
Proof.
  intros F K P report s1.
  assert (E : s1 = park (TsaveLog {| d_timestamp := now s; d_level := ERROR;
                                      d_message := "Failed to save log to DB";
                                      d_stackTrace := None;
                                      d_metadata := Some (VArray [open_failure]) |})
                        (emit (Output ChError report)
                              (set_pending (q ++ r) s))).
  { unfold s1. cbn [step]. unfold run_task.
    rewrite P, nth_error_middle, remove_nth_middle.
    rewrite (getDB_resume_failed _ _ F).
    cbn [resume addLogEntry saveLog_resume db_onerror].
    cbn [console set_pending]. rewrite K. reflexivity. }
  rewrite E. rewrite park_promised by
    (cbn; exact (failed_is_promised _ _ F)).
  cbn. rewrite <- app_assoc. repeat split; try assumption; apply F.
Qed.

Lemma failure_reports_go_round n q o k :
  forall s a b,
    init_failed n s ->
    console s = installed 2 ->
    pending s = q ++ [TsaveLog a; TsaveLog b] ->
    let sk := run (repeat (EvRun (List.length q) o) k) s in
    (exists a' b', pending sk = q ++ [TsaveLog a'; TsaveLog b'])
    /\ trace sk
       = trace s ++ repeat (Output ChError [VStr "Failed to save log to DB";
                                            open_failure]) k
    /\ idb sk = idb s
    /\ init_failed n sk.
Proof.
  induction k as [|k IH]; intros s a b F K P.
  - cbn [repeat run fold_left]. rewrite app_nil_r.
    split; [exists a, b; exact P | split; [reflexivity | split; [reflexivity | exact F]]].
  - change (run (repeat (EvRun (List.length q) o) (S k)) s)
      with (run (repeat (EvRun (List.length q) o) k)
                (step (EvRun (List.length q) o) s)).
    cbn [repeat].
    destruct (failure_report_is_saved_again n q a [TsaveLog b] o s F K P)
      as (F1 & K1 & P1 & T1 & D1).
    destruct (IH _ _ _ F1 K1 P1) as (Hp & Ht & Hd & Hf).
    split; [exact Hp | split; [|split; [|exact Hf]]].
    + rewrite Ht, T1, <- app_assoc. reflexivity.
    + now rewrite Hd.
Qed.

(** [X11] After a second [initGlobalLogger], [_originalError] is the first
    interceptor.  With the open refused, the failure report of [saveLog]
    is then itself captured and handed to [saveLog], where it fails and is
    reported again: after one console call, however many suspended calls
    are resumed, two are always left waiting, each resumption prints one
    more report, and nothing is ever stored. *)
Theorem second_install_makes_failure_reports_loop (n k : nat) (c : Chan)
  (args : list Value) (d : LogDraft) (o : Outcome) (s : State) :
  init_failed n s ->
  console s = installed 2 ->
  intercepted c args (now s) = Some d ->
  let m := List.length (pending s) in
  let sk := run (EvConsole c args :: repeat (EvRun m o) k) s in
  (exists a b, pending sk = pending s ++ [TsaveLog a; TsaveLog b])
  /\ trace sk
     = trace s ++ Output c args
       :: repeat (Output ChError [VStr "Failed to save log to DB";
                                  open_failure]) k
  /\ idb sk = idb s.
Proof.
  intros F K I m sk.
  set (s0 := console_call c args s).
  assert (Q : quiet s s0) by apply quiet_console_call.
  assert (F0 : init_failed n s0)
    by (apply (closed_quiet _ _ (init_failed_closed n) s s0 Q F)).
  assert (K0 : console s0 = installed 2)
    by (rewrite (quiet_console _ _ Q); exact K).
  assert (H0 : pending s0 = pending s ++ [TsaveLog d; TsaveLog d]
               /\ trace s0 = trace s ++ [Output c args]).
  { unfold s0, console_call. rewrite K.
    exact (nested_interceptors 2 c args d s I). }
  destruct H0 as [Hp Ht].
  destruct (failure_reports_go_round n (pending s) o k s0 d d F0 K0 Hp)
    as (Hp' & Ht' & Hd' & _).
  change sk with (run (repeat (EvRun (List.length (pending s)) o) k) s0).
  split; [exact Hp' | split].
  - rewrite Ht', Ht, <- app_assoc. reflexivity.
  - rewrite Hd'. apply (quiet_idb _ _ Q).
Qed.

Lemma second_install_makes_failure_reports_loop_witness :
  let s := run [EvInstall; EvInstall; EvInitDB; EvOpenError VNull;
                EvRun 0 Commit; EvRun 0 Commit; EvRun 0 Commit]
               (fresh IDB.empty 0) in
  idb (run (EvConsole ChLog [VStr "x"] :: repeat (EvRun 2 Commit) 5) s)
  = idb s.
Proof.
  exact (proj2 (proj2 (second_install_makes_failure_reports_loop 1 5 ChLog
    [VStr "x"] (draft 0 INFO "x" None []) Commit
    (run [EvInstall; EvInstall; EvInitDB; EvOpenError VNull;
          EvRun 0 Commit; EvRun 0 Commit; EvRun 0 Commit]
         (fresh IDB.empty 0))
    (conj eq_refl (conj eq_refl eq_refl)) eq_refl eq_refl))).
Defined.

(** ** The producers outside the logger *)

(** [X12] The one [console.error] call that [componentDidCatch] makes is
    captured as one [ERROR] entry with the fixed message, the component
    stack and the error's message as metadata, and no stack trace: the
    stack of the error is not in the entry of this call.  The text is
    printed on the original error channel, and the boundary renders its
    fallback.  This is the call of the boundary alone; what React itself
    prints about the error it caught is another console call, captured on
    its own. *)
Theorem boundary_capture_has_no_stack_trace (name message : string)
  (stack : option string) (componentStack : Value) (s : State) :
  console s = installed_once ->
  let s' := ErrorBoundary.componentDidCatch name message stack componentStack s in
  let meta := VObject [("componentStack"%string, componentStack);
                       ("originalError"%string, VStr message)] in
  skipn (List.length (pending s)) (pending s')
  = [TsaveLog (draft (now s) ERROR "Uncaught Exception in Component" None [meta])]
  /\ trace s' = trace s ++ [Output ChError
                              [VStr "Uncaught Exception in Component"; meta]]
  /\ ErrorBoundary.render
       (ErrorBoundary.getDerivedStateFromError (VError name message stack))
     = true.
Proof.
  intros K s' meta. split; [|split; [|reflexivity]].
  - exact (captured_installed_once ChError _ s K).
  - unfold s', ErrorBoundary.componentDidCatch, console_call. rewrite K.
    cbn [slot installed_once c_error call]. unfold saveLog.
    now rewrite park_trace.
Qed.

Lemma boundary_capture_has_no_stack_trace_witness :
  let s := run [EvInstall] (fresh IDB.empty 3) in
  skipn (List.length (pending s))
        (pending (ErrorBoundary.componentDidCatch "Error" "I crashed!"
                    (Some "at BuggyComponent"%string) (VStr "at App") s))
  = [TsaveLog (draft 3 ERROR "Uncaught Exception in Component" None
                 [VObject [("componentStack"%string, VStr "at App");
                           ("originalError"%string, VStr "I crashed!")]])].
Proof.
  exact (proj1 (boundary_capture_has_no_stack_trace "Error" "I crashed!"
                  (Some "at BuggyComponent"%string) (VStr "at App")
                  (run [EvInstall] (fresh IDB.empty 3)) eq_refl)).
Defined.

(** When the error has already been printed with [console.error(error)]
    by the time [componentDidCatch] runs, the two calls leave two entries:
    the first holds the error's message and stack, the second is the
    boundary's. *)
Example printed_error_and_boundary_entry :
  let crash := VError "Error" "I crashed!" (Some "at BuggyComponent"%string) in
  let s := run [EvInstall; EvConsole ChError [crash]] (fresh IDB.empty 3) in
  pending (ErrorBoundary.componentDidCatch "Error" "I crashed!"
             (Some "at BuggyComponent"%string) (VStr "at App") s)
  = [TsaveLog (draft 3 ERROR "I crashed!" (Some "at BuggyComponent"%string) []);
     TsaveLog (draft 3 ERROR "Uncaught Exception in Component" None
                 [VObject [("componentStack"%string, VStr "at App");
                           ("originalError"%string, VStr "I crashed!")]])].
Proof. reflexivity. Qed.

(** [X13] A failed request is captured as one [ERROR] entry whose message
    is "Axios Error: " followed by the error's message, without stack
    trace, with the five request and response fields as its one metadata
    value; the fields of a missing [config] or [response] are [undefined];
    the rejection is passed on unchanged. *)
Theorem request_failure_is_captured_and_passed_on (error : Api.AxiosError)
  (s : State) :
  console s = installed_once ->
  let s' := fst (Api.onRejected error s) in
  snd (Api.onRejected error s) = error
  /\ skipn (List.length (pending s)) (pending s')
     = [TsaveLog (draft (now s) ERROR
                    ("Axios Error: " ++ ToString (Api.message error)) None
                    [Api.errorMeta error])]
  /\ (Api.response error = None ->
      Api.errorMeta error
      = VObject [("url"%string, Api.optional (Api.config error) Api.url);
                 ("method"%string, Api.optional (Api.config error) Api.method);
                 ("status"%string, VUndefined);
                 ("statusText"%string, VUndefined);
                 ("data"%string, VUndefined)]).
Proof.
  intros K s'. split; [reflexivity | split].
  - exact (captured_installed_once ChError _ s K).
  - intros R. unfold Api.errorMeta. now rewrite R.
Qed.

Lemma request_failure_is_captured_and_passed_on_witness :
  let error := {| Api.message := VStr "Network Error";
                  Api.config := Some {| Api.url := VStr "/force-404-error";
                                        Api.method := VStr "get" |};
                  Api.response := None |} in
  let s := run [EvInstall] (fresh IDB.empty 3) in
  skipn (List.length (pending s)) (pending (fst (Api.onRejected error s)))
  = [TsaveLog (draft 3 ERROR "Axios Error: Network Error" None
                 [VObject [("url"%string, VStr "/force-404-error");
                           ("method"%string, VStr "get");
                           ("status"%string, VUndefined);
                           ("statusText"%string, VUndefined);
                           ("data"%string, VUndefined)]])].
Proof.
  exact (proj1 (proj2 (request_failure_is_captured_and_passed_on
    {| Api.message := VStr "Network Error";
       Api.config := Some {| Api.url := VStr "/force-404-error";
                             Api.method := VStr "get" |};
       Api.response := None |}
    (run [EvInstall] (fresh IDB.empty 3)) eq_refl))).
Defined.

(** ** The hook that displays the logs *)

Lemma react_silent new c :
  forallb silent new = true -> fold_left Hook.react new c = c.
Proof.
  revert c. induction new as [|o new IH]; intros c H; simpl; [reflexivity|].
  simpl in H. apply andb_true_iff in H as [Ho Hn].
  rewrite <- (IH c Hn) at 2. f_equal. now destruct o.
Qed.

Lemma quiet_silent s s' :
  quiet s s' ->
  exists new, trace s' = trace s ++ new /\ forallb silent new = true.
Proof.
  induction 1 as [| s' c a _ (new & E & S) | s' t _ IH | s' _ (new & E & S)].
  - exists []. now rewrite app_nil_r.
  - exists (new ++ [Output c a]). simpl. rewrite E, <- app_assoc.
    split; [reflexivity|]. rewrite forallb_app, S. reflexivity.
  - exact IH.
  - exists new. now rewrite getDB_call_trace.
Qed.

Lemma silent_same s s' :
  trace s' = trace s ->
  exists new, trace s' = trace s ++ new /\ forallb silent new = true.
Proof. intros E. exists []. now rewrite app_nil_r. Qed.

Lemma silent_one o s :
  silent o = true ->
  exists new, trace (emit o s) = trace s ++ new /\ forallb silent new = true.
Proof. intros H. exists [o]. simpl. now rewrite H. Qed.

Lemma resume_rejected_silent t r o s :
  exists new,
    trace (resume t (Reject r) o s) = trace s ++ new
    /\ forallb silent new = true.
Proof.
  destruct t as [entry | | l | | c [entry | |]];
    cbn [resume addLogEntry getAllLogs clearAllLogs db_onerror
         saveLog_resume notifyListeners_resume subscribe_resume clear_resume
         caller_resume];
    try (apply silent_one; reflexivity).
  - destruct (_originalError (console s));
      [apply quiet_silent, quiet_call | apply silent_same; reflexivity].
  - apply quiet_silent, quiet_console_call.
Qed.

Lemma failed_step_silent n e s :
  init_failed n s ->
  exists new, trace (step e s) = trace s ++ new /\ forallb silent new = true.
Proof.
  intros F. pose proof F as (D & P & _).
  assert (R : forall i o,
             exists new, trace (run_task i o s) = trace s ++ new
                         /\ forallb silent new = true).
  { intros i o. unfold run_task.
    destruct (nth_error (pending s) i); [|apply silent_same; reflexivity].
    rewrite (getDB_resume_failed _ _ F).
    apply (resume_rejected_silent t open_failure o
             (set_pending (remove_nth i (pending s)) s)). }
  destruct e; cbn [step].
  - apply silent_same; reflexivity.
  - unfold initGlobalLogger.
    apply (quiet_silent (set_console (wrap (console s)) s)), quiet_console_call.
  - apply quiet_silent, quiet_console_call.
  - apply silent_same. now rewrite initDB_is_getDB_call, getDB_call_trace.
  - apply quiet_silent, quiet_parked.
  - apply (quiet_silent (set_listeners (set_add l (listeners s)) s)), quiet_parked.
  - apply silent_same; reflexivity.
  - apply quiet_silent, quiet_parked.
  - apply quiet_silent, quiet_saveLog.
  - apply silent_same. unfold open_onsuccess. now rewrite P.
  - apply silent_same. unfold open_onerror. now rewrite P.
  - apply R.
  - apply silent_same. unfold open_threw. now rewrite P.
  - exact (R i Commit).
Qed.

Lemma react_broadcast logs ls c :
  fold_left Hook.react (broadcast logs ls) c
  = if existsb (fun l => existsb (Nat.eqb l) (Hook.callbacks c)) ls
    then Hook.callback logs c else c.
Proof.
  revert c. induction ls as [|l ls IH]; intros c; simpl; [reflexivity|].
  rewrite IH.
  destruct (existsb (Nat.eqb l) (Hook.callbacks c)) eqn:E; simpl; [|reflexivity].
  match goal with |- context [if ?b then _ else _] => destruct b end;
    reflexivity.
Qed.

(** [X14] A component that mounts on an open store shows, once the scan of
    its [subscribe] commits, exactly what the store holds, newest first, and
    is no longer loading; if that scan fails, it goes on showing what it
    showed and stays loading. *)
Theorem mounted_hook_shows_the_store (c : Hook.Component) (l : Listener)
  (o : Outcome) (s : State) :
  dbInstance s = true ->
  let n := List.length (pending s) in
  let c' := fst (Hook.hrun [Hook.Mount l; Hook.Page (EvRun n o)] (c, s)) in
  match o with
  | Commit => Hook.logs c' = cursor_prev (idb s) /\ Hook.isLoading c' = false
  | Abort _ => Hook.logs c' = Hook.logs c /\ Hook.isLoading c' = true
  end.
Proof.
  intros D n c'. unfold c', n.
  cbn [Hook.hrun fold_left Hook.hstep Hook.effect Hook.page fst snd].
  unfold Logger.subscribe.
  rewrite park_open by exact D.
  cbn [pending set_listeners].
  rewrite (step_run_last (pending s) (Tsubscribe l) (Resolve tt)) by
    (apply getDB_resume_open; exact D).
  cbn [resume getAllLogs IDB.scan].
  destruct o as [|e]; cbn [IDB.scan subscribe_resume db_onerror].
  - cbn [trace emit set_pending set_listeners idb].
    rewrite skipn_length_app. cbn [fold_left Hook.react Hook.callbacks existsb].
    rewrite Nat.eqb_refl. cbn. split; reflexivity.
  - assert (Q : quiet (emit (Unhandled e)
                         (set_pending (pending s)
                            (set_listeners (set_add l (listeners s)) s)))
                      (console_call ChError [VStr "Database error:"; e]
                         (emit (Unhandled e)
                            (set_pending (pending s)
                               (set_listeners (set_add l (listeners s)) s)))))
      by apply quiet_console_call.
    apply quiet_silent in Q as (new & E & S). rewrite E.
    cbn [trace emit set_pending set_listeners].
    rewrite <- app_assoc, skipn_length_app.
    cbn [app fold_left Hook.react]. rewrite (react_silent _ _ S).
    split; reflexivity.
Qed.

Lemma mounted_hook_shows_the_store_witness :
  let s := run [EvCall 0 (OpAdd (draft 5 INFO "first" None []));
                EvOpenSuccess; EvRun 0 Commit] (fresh IDB.empty 0) in
  let c' := fst (Hook.hrun [Hook.Mount 1; Hook.Page (EvRun 0 Commit)]
                           (Hook.initial, s)) in
  Hook.logs c' = [with_id 1 (draft 5 INFO "first" None [])]
  /\ Hook.isLoading c' = false.
Proof.
  exact (mounted_hook_shows_the_store Hook.initial 1%nat Commit
           (run [EvCall 0 (OpAdd (draft 5 INFO "first" None []));
                 EvOpenSuccess; EvRun 0 Commit] (fresh IDB.empty 0))
           eq_refl).
Defined.

(** [X15] While the database cannot be opened no listener is ever called,
    so a component that mounts then stays loading, with the logs it had,
    through everything that happens on the page afterwards. *)
Theorem hook_keeps_loading_while_store_is_down (n : nat) (c : Hook.Component)
  (l : Listener) (es : list Event) (s : State) :
  init_failed n s ->
  let c' := fst (Hook.hrun (Hook.Mount l :: map Hook.Page es) (c, s)) in
  Hook.isLoading c' = true
  /\ Hook.logs c' = Hook.logs c
  /\ forallb silent
       (skipn (List.length (trace s))
              (trace (snd (Hook.hrun (Hook.Mount l :: map Hook.Page es) (c, s)))))
     = true.
Proof.
  intros F.
  assert (G : forall es c0 s0,
             init_failed n s0 ->
             fst (Hook.hrun (map Hook.Page es) (c0, s0)) = c0
             /\ exists new,
                  trace (snd (Hook.hrun (map Hook.Page es) (c0, s0)))
                  = trace s0 ++ new
                  /\ forallb silent new = true).
  { clear. induction es as [|e es IH]; intros c0 s0 F.
    - split; [reflexivity | apply silent_same; reflexivity].
    - destruct (failed_step_silent n e s0 F) as (new & E & S).
      assert (Pg : Hook.page e (c0, s0) = (c0, step e s0)).
      { unfold Hook.page. cbn [fst snd].
        now rewrite E, skipn_length_app, (react_silent _ _ S). }
      change (Hook.hrun (map Hook.Page (e :: es)) (c0, s0))
        with (Hook.hrun (map Hook.Page es) (Hook.page e (c0, s0))).
      rewrite Pg.
      assert (F1 : init_failed n (step e s0))
        by (apply (closed_step _ _ (init_failed_closed n)); auto).
      destruct (IH c0 (step e s0) F1) as (H1 & new' & E' & S').
      split; [exact H1|].
      exists (new ++ new'). rewrite E', E, <- app_assoc.
      split; [reflexivity|]. now rewrite forallb_app, S, S'. }
  cbn zeta.
  change (Hook.hrun (Hook.Mount l :: map Hook.Page es) (c, s))
    with (Hook.hrun (map Hook.Page es) (Hook.effect l (c, s))).
  unfold Hook.effect. cbn [fst snd].
  set (c1 := {| Hook.logs := Hook.logs c; Hook.isLoading := true;
                Hook.callbacks := l :: Hook.callbacks c |}).
  set (s1 := Logger.subscribe l s).
  assert (F1 : init_failed n s1)
    by (apply (closed_step _ _ (init_failed_closed n) (EvSubscribe l)); auto).
  assert (T1 : trace s1 = trace s)
    by (unfold s1, Logger.subscribe; now rewrite park_trace).
  destruct (G es c1 s1 F1) as (H1 & new & E & S).
  rewrite H1, E, T1, skipn_length_app.
  repeat split. exact S.
Qed.

Lemma hook_keeps_loading_while_store_is_down_witness :
  let s := run [EvInstall; EvInitDB; EvOpenError VNull] (fresh IDB.empty 0) in
  let c' := fst (Hook.hrun
                   (Hook.Mount 1
                    :: map Hook.Page [EvRun 0 Commit; EvRun 0 Commit;
                                      EvConsole ChLog [VStr "x"];
                                      EvRun 0 Commit; EvClear; EvRun 0 Commit])
                   (Hook.initial, s)) in
  Hook.isLoading c' = true.
Proof.
  exact (proj1 (hook_keeps_loading_while_store_is_down 1 Hook.initial 1%nat
    [EvRun 0 Commit; EvRun 0 Commit; EvConsole ChLog [VStr "x"];
     EvRun 0 Commit; EvClear; EvRun 0 Commit]
    (run [EvInstall; EvInitDB; EvOpenError VNull] (fresh IDB.empty 0))
    (conj eq_refl (conj eq_refl eq_refl)))).
Defined.

Lemma page_reacts_to e c s new :
  trace (step e s) = trace s ++ new ->
  Hook.page e (c, s) = (fold_left Hook.react new c, step e s).
Proof.
  intros E. unfold Hook.page. cbn [fst snd].
  now rewrite E, skipn_length_app.
Qed.

(** [X16] [clearLogs] of a mounted component, on an open store: when the
    clear and the re-read commit, the component shows the empty list and is
    not loading. *)
Theorem hook_shows_nothing_after_clearLogs (c : Hook.Component) (l : Listener)
  (s : State) :
  dbInstance s = true ->
  existsb (Nat.eqb l) (listeners s) = true ->
  existsb (Nat.eqb l) (Hook.callbacks c) = true ->
  let n := List.length (pending s) in
  let cs := Hook.hrun [Hook.ClearLogs; Hook.Page (EvRun n Commit);
                       Hook.Page (EvRun n Commit)] (c, s) in
  Hook.logs (fst cs) = []
  /\ Hook.isLoading (fst cs) = false
  /\ rows (idb (snd cs)) = [].
Proof.
  intros D L C n cs. unfold cs, n.
  cbn [Hook.hrun fold_left Hook.hstep].
  assert (E1 : step EvClear s = set_pending (pending s ++ [Tclear]) s)
    by (exact (park_open Tclear s D)).
  rewrite (page_reacts_to EvClear c s []) by
    (rewrite E1; cbn; now rewrite app_nil_r).
  rewrite E1. cbn [fold_left].
  assert (E2 : step (EvRun (List.length (pending s)) Commit)
                    (set_pending (pending s ++ [Tclear]) s)
               = set_pending (pending s ++ [TnotifyListeners]) (commit_clear s)).
  { rewrite (step_run_last _ _ (Resolve tt)) by
      (apply getDB_resume_open; exact D).
    rewrite set_pending_same.
    cbn [resume clearAllLogs IDB.clear clear_resume db_onerror].
    unfold notifyListeners. now rewrite park_open by exact D. }
  rewrite (page_reacts_to _ c _ []) by
    (rewrite E2; cbn; now rewrite app_nil_r).
  rewrite E2. cbn [fold_left].
  assert (E3 : step (EvRun (List.length (pending s)) Commit)
                    (set_pending (pending s ++ [TnotifyListeners])
                                 (commit_clear s))
               = with_trace (trace s ++ broadcast [] (listeners s))
                            (set_pending (pending s) (commit_clear s))).
  { rewrite (step_run_last _ _ (Resolve tt)) by
      (apply getDB_resume_open; exact D).
    cbn [resume getAllLogs IDB.scan notifyListeners_resume db_onerror].
    now rewrite forEach_broadcasts. }
  rewrite (page_reacts_to _ c _ (broadcast [] (listeners s))) by
    (rewrite E3; reflexivity).
  rewrite E3, react_broadcast. cbn [fst snd].
  assert (X : existsb (fun l0 => existsb (Nat.eqb l0) (Hook.callbacks c))
                      (listeners s) = true).
  { apply existsb_exists in L as (x & Hx & Hlx).
    apply Nat.eqb_eq in Hlx. subst x.
    apply existsb_exists. exists l. split; [exact Hx | exact C]. }
  rewrite X. repeat split.
Qed.

Lemma hook_shows_nothing_after_clearLogs_witness :
  let c := {| Hook.logs := [with_id 1 (draft 0 ERROR "kept" None [])];
              Hook.isLoading := false; Hook.callbacks := [1%nat] |} in
  let s := run [EvSubscribe 1; EvOpenSuccess; EvRun 0 Commit;
                EvInternalError "kept" None None; EvRun 0 Commit;
                EvRun 0 Commit] (fresh IDB.empty 0) in
  Hook.logs (fst (Hook.hrun [Hook.ClearLogs; Hook.Page (EvRun 0 Commit);
                             Hook.Page (EvRun 0 Commit)] (c, s)))
  = [].
Proof.
  exact (proj1 (hook_shows_nothing_after_clearLogs
    {| Hook.logs := [with_id 1 (draft 0 ERROR "kept" None [])];
       Hook.isLoading := false; Hook.callbacks := [1%nat] |}
    1%nat
    (run [EvSubscribe 1; EvOpenSuccess; EvRun 0 Commit;
          EvInternalError "kept" None None; EvRun 0 Commit;
          EvRun 0 Commit] (fresh IDB.empty 0))
    eq_refl eq_refl eq_refl)).
Defined.

(** ** The provider *)

Lemma wait_open t s lg ld w :
  dbInstance s = true \/ initPromise s <> None ->
  Provider.wait t (Provider.mkCtx s lg ld w) = Provider.mkCtx s lg ld (w ++ [t]).
Proof.
  intros H. unfold Provider.wait. cbn.
  assert (E : getDB_call s = s)
    by (destruct H; [now apply getDB_call_open | now apply getDB_call_promised]).
  now rewrite E.
Qed.

Lemma pstep_resume_last s lg ld w t o :
  Provider.pstep (Provider.Resume (List.length w) o)
                 (Provider.mkCtx s lg ld (w ++ [t]))
  = match Provider.resume t o (Provider.mkCtx s lg ld w) with
    | Some c' => c'
    | None => Provider.mkCtx s lg ld (w ++ [t])
    end.
Proof.
  cbn [Provider.pstep Provider.waiting Provider.set_waiting].
  now rewrite nth_error_snoc, remove_nth_snoc.
Qed.

Ltac ctx_simpl :=
  cbv [Provider.set_core Provider.setLogs Provider.setIsLoading
       Provider.set_waiting Provider.core Provider.logs Provider.isLoading
       Provider.waiting Provider.refreshLogs Provider.bubble
       Provider.console_error Provider.finish].

Lemma logging_call_waits e entry c :
  Provider.entry_of e (now (Provider.core c)) = Some entry ->
  Provider.pstep e c = Provider.wait (Provider.TpersistLog entry) c.
Proof.
  intros E. destruct e; cbn in E; try discriminate; injection E as <-;
    try reflexivity.
  now destruct error.
Qed.

(** [X17] [logInfo], [logWarn] and [logError] of the provider on an open
    store: when the insert and the refresh commit, the store holds the new
    record, the structured clone of the entry, under the next key, and the
    provider's [logs] are the full scan of that store.  The logger's listeners are not called: the only
    observation is the resolved insert. *)
Theorem provider_log_is_stored_and_shown (e : Provider.PEvent)
  (entry : LogDraft) (c : Provider.Ctx) :
  dbInstance (Provider.core c) = true ->
  keygen (idb (Provider.core c)) <= max_key ->
  Provider.entry_of e (now (Provider.core c)) = Some entry ->
  let n := List.length (Provider.waiting c) in
  let c' := Provider.prun [e; Provider.Resume n Commit;
                           Provider.Resume n Commit] c in
  rows (idb (Provider.core c'))
  = rows (idb (Provider.core c))
    ++ [(keygen (idb (Provider.core c)), clone_draft entry)]
  /\ Provider.logs c' = cursor_prev (idb (Provider.core c'))
  /\ trace (Provider.core c')
     = trace (Provider.core c) ++ [AddResolved (keygen (idb (Provider.core c)))]
  /\ Provider.waiting c' = Provider.waiting c
  /\ Provider.isLoading c' = Provider.isLoading c.
Proof.
  intros D Hmax E n c'. unfold c', n.
  cbn [Provider.prun fold_left].
  rewrite (logging_call_waits e entry c E).
  destruct c as [s lg ld w]. cbn [Provider.core Provider.waiting] in *.
  rewrite (wait_open _ s lg ld w (or_introl D)).
  rewrite pstep_resume_last.
  cbn [Provider.resume Provider.core].
  rewrite (getDB_resume_open _ D).
  cbn [addLogEntry IDB.add].
  destruct (keygen (idb s) >? max_key) eqn:G;
    [apply Z.gtb_lt in G; lia|].
  ctx_simpl. rewrite wait_open by (left; exact D).
  cbn [db_onerror]. rewrite pstep_resume_last.
  cbn [Provider.resume Provider.core].
  rewrite getDB_resume_open by exact D.
  cbn. repeat split.
Qed.

Lemma provider_log_is_stored_and_shown_witness :
  let c := Provider.initial (run [EvInitDB; EvOpenSuccess] (fresh IDB.empty 4)) in
  let c' := Provider.prun
              [Provider.LogError (IsError "Error" "boom" (Some "at foo()"%string))
                                 None;
               Provider.Resume 0 Commit; Provider.Resume 0 Commit] c in
  Provider.logs c'
  = [{| id := 1; timestamp := 4; level := ERROR; message := "boom";
        stackTrace := Some "at foo()"%string; metadata := None |}].
Proof.
  pose proof (provider_log_is_stored_and_shown
    (Provider.LogError (IsError "Error" "boom" (Some "at foo()"%string)) None)
    (persistLog_entry 4 ERROR "boom" (Some "at foo()"%string) None)
    (Provider.initial (run [EvInitDB; EvOpenSuccess] (fresh IDB.empty 4)))
    eq_refl ltac:(vm_compute; discriminate) eq_refl) as (_ & H & _).
  exact H.
Defined.

Lemma pstep_mount_unopened s lg ld w :
  dbInstance s = false -> initPromise s = None ->
  Provider.pstep Provider.Mount (Provider.mkCtx s lg ld w)
  = Provider.mkCtx (set_init false (Some Pending) (S (opens s)) s) lg true
                   (w ++ [Provider.Tinit]).
Proof.
  intros D P. cbn [Provider.pstep]. unfold Provider.init, initDB.
  ctx_simpl. now rewrite D, P.
Qed.

Lemma pstep_page e s lg ld w :
  Provider.pstep (Provider.Page e) (Provider.mkCtx s lg ld w)
  = Provider.mkCtx (step e s) lg ld w.
Proof. reflexivity. Qed.

(** [X18] The provider's mount effect on a page where nothing has opened
    the database yet: it opens it and shows loading.  If the open succeeds,
    the provider ends up not loading whether the first scan commits (its
    [logs] are then the store's records, newest first) or fails (its [logs]
    stay as they were).  If the open fails, it ends up not loading as well,
    with its [logs] as they were. *)
Theorem provider_init_ends_loading (c : Provider.Ctx) (o1 o2 : Outcome)
  (event : Value) :
  dbInstance (Provider.core c) = false ->
  initPromise (Provider.core c) = None ->
  let n := List.length (Provider.waiting c) in
  let mounted := Provider.pstep Provider.Mount c in
  let opened := Provider.prun [Provider.Mount; Provider.Page EvOpenSuccess;
                               Provider.Resume n o1; Provider.Resume n o2] c in
  let refused := Provider.prun [Provider.Mount;
                                Provider.Page (EvOpenError event);
                                Provider.Resume n o1] c in
  Provider.isLoading mounted = true
  /\ opens (Provider.core mounted) = S (opens (Provider.core c))
  /\ Provider.isLoading opened = false
  /\ Provider.logs opened
     = match o2 with
       | Commit => cursor_prev (idb (Provider.core c))
       | Abort _ => Provider.logs c
       end
  /\ Provider.waiting opened = Provider.waiting c
  /\ Provider.isLoading refused = false
  /\ Provider.logs refused = Provider.logs c
  /\ Provider.waiting refused = Provider.waiting c.
Proof.
  destruct c as [s lg ld w].
  intros D P n mounted opened refused.
  cbn [Provider.core] in D, P.
  unfold mounted, opened, refused, n.
  cbn [Provider.prun fold_left Provider.core Provider.waiting Provider.logs].
  rewrite (pstep_mount_unopened s lg ld w D P).
  split; [reflexivity | split; [reflexivity|]].
  set (s1 := set_init false (Some Pending) (S (opens s)) s).
  split; [|split; [|split]].
  1-3: rewrite pstep_page;
    change (step EvOpenSuccess s1)
      with (set_init true (Some Fulfilled) (S (opens s)) s);
    rewrite pstep_resume_last; cbn [Provider.resume]; ctx_simpl;
    cbn [Provider.initDB_resume dbInstance set_init];
    ctx_simpl; rewrite wait_open by (left; reflexivity);
    rewrite pstep_resume_last; cbn [Provider.resume]; ctx_simpl;
    rewrite getDB_resume_open by reflexivity;
    cbn [getAllLogs IDB.scan]; destruct o2; reflexivity.
  assert (F : init_failed (S (opens s)) (step (EvOpenError event) s1)).
  { exact (open_onerror_fails event s1 eq_refl eq_refl). }
  destruct F as (F1 & F2 & _).
  split; [|split];
    rewrite pstep_page;
    rewrite pstep_resume_last; cbn [Provider.resume]; ctx_simpl;
    unfold Provider.initDB_resume; rewrite F1, F2; reflexivity.
Qed.

Lemma provider_init_ends_loading_witness :
  let db := {| rows := [(1, draft 5 INFO "old" None [])]; keygen := 2 |} in
  let c := Provider.initial (fresh db 0) in
  Provider.logs (Provider.prun [Provider.Mount; Provider.Page EvOpenSuccess;
                                Provider.Resume 0 Commit;
                                Provider.Resume 0 Commit] c)
  = [with_id 1 (draft 5 INFO "old" None [])]
  /\ Provider.isLoading
       (Provider.prun [Provider.Mount; Provider.Page (EvOpenError VNull);
                       Provider.Resume 0 Commit] c)
     = false.
Proof.
  pose proof (provider_init_ends_loading
    (Provider.initial
       (fresh {| rows := [(1, draft 5 INFO "old" None [])]; keygen := 2 |} 0))
    Commit Commit VNull eq_refl eq_refl) as (_ & _ & _ & H1 & _ & H2 & _).
  exact (conj H1 H2).
Defined.

(** [X19] [refreshLogs] of the provider on an open store: a scan that
    commits replaces the provider's [logs] by the store's records, newest
    first; a scan that fails leaves [logs] as they were.  Either way the
    store and the loading flag are untouched and nothing is left waiting. *)
Theorem provider_refresh_replaces_or_keeps_logs (c : Provider.Ctx)
  (o : Outcome) :
  dbInstance (Provider.core c) = true ->
  let n := List.length (Provider.waiting c) in
  let c' := Provider.prun [Provider.RefreshLogs; Provider.Resume n o] c in
  Provider.logs c'
  = match o with
    | Commit => cursor_prev (idb (Provider.core c))
    | Abort _ => Provider.logs c
    end
  /\ idb (Provider.core c') = idb (Provider.core c)
  /\ Provider.isLoading c' = Provider.isLoading c
  /\ Provider.waiting c' = Provider.waiting c.
Proof.
  destruct c as [s lg ld w]. intros D n c'. cbn [Provider.core] in D.
  unfold c', n.
  cbn [Provider.prun fold_left Provider.core Provider.waiting Provider.logs
       Provider.isLoading].
  change (Provider.pstep Provider.RefreshLogs (Provider.mkCtx s lg ld w))
    with (Provider.wait (Provider.TrefreshLogs Provider.Nothing)
                        (Provider.mkCtx s lg ld w)).
  rewrite wait_open by (left; exact D).
  rewrite pstep_resume_last. cbn [Provider.resume Provider.core].
  rewrite getDB_resume_open by exact D.
  destruct o as [|e]; cbn [getAllLogs IDB.scan]; ctx_simpl; cbn [db_onerror];
    [repeat split|].
  repeat split.
  rewrite !(quiet_idb _ _ (quiet_console_call _ _ _)). reflexivity.
Qed.

Lemma provider_refresh_replaces_or_keeps_logs_witness :
  let db := {| rows := [(1, draft 5 INFO "old" None [])]; keygen := 2 |} in
  let c := Provider.initial (run [EvInitDB; EvOpenSuccess] (fresh db 0)) in
  Provider.logs (Provider.prun [Provider.RefreshLogs; Provider.Resume 0 Commit] c)
  = [with_id 1 (draft 5 INFO "old" None [])].
Proof.
  exact (proj1 (provider_refresh_replaces_or_keeps_logs
    (Provider.initial
       (run [EvInitDB; EvOpenSuccess]
            (fresh {| rows := [(1, draft 5 INFO "old" None [])]; keygen := 2 |}
                   0)))
    Commit eq_refl)).
Defined.

(** [X20] [clearLogs] of the provider on an open store: when the clear and
    the refresh commit, the store and the provider's [logs] are empty; when
    the clear fails, store and [logs] are as they were and no refresh is
    started. *)
Theorem provider_clearLogs_empties_or_keeps (c : Provider.Ctx) (e : Value) :
  dbInstance (Provider.core c) = true ->
  let n := List.length (Provider.waiting c) in
  let cleared := Provider.prun [Provider.ClearLogs; Provider.Resume n Commit;
                                Provider.Resume n Commit] c in
  let failed := Provider.prun [Provider.ClearLogs;
                               Provider.Resume n (Abort e)] c in
  rows (idb (Provider.core cleared)) = []
  /\ Provider.logs cleared = []
  /\ Provider.waiting cleared = Provider.waiting c
  /\ idb (Provider.core failed) = idb (Provider.core c)
  /\ Provider.logs failed = Provider.logs c
  /\ Provider.waiting failed = Provider.waiting c.
Proof.
  destruct c as [s lg ld w]. intros D n cleared failed. cbn [Provider.core] in D.
  unfold cleared, failed, n.
  cbn [Provider.prun fold_left Provider.core Provider.waiting Provider.logs].
  change (Provider.pstep Provider.ClearLogs (Provider.mkCtx s lg ld w))
    with (Provider.wait Provider.TclearLogs (Provider.mkCtx s lg ld w)).
  rewrite wait_open by (left; exact D).
  rewrite !pstep_resume_last. cbn [Provider.resume]. ctx_simpl.
  rewrite getDB_resume_open by exact D.
  cbn [clearAllLogs IDB.clear]. ctx_simpl.
  rewrite wait_open by (left; exact D).
  cbn [db_onerror]. rewrite pstep_resume_last.
  cbn [Provider.resume]. ctx_simpl.
  rewrite getDB_resume_open by exact D.
  cbn [getAllLogs IDB.scan db_onerror]. ctx_simpl.
  repeat split.
  rewrite !(quiet_idb _ _ (quiet_console_call _ _ _)). now rewrite set_idb_same.
Qed.

Lemma provider_clearLogs_empties_or_keeps_witness :
  let db := {| rows := [(1, draft 5 INFO "old" None [])]; keygen := 2 |} in
  let c := Provider.initial (run [EvInitDB; EvOpenSuccess] (fresh db 0)) in
  rows (idb (Provider.core
               (Provider.prun [Provider.ClearLogs; Provider.Resume 0 Commit;
                               Provider.Resume 0 Commit] c)))
  = [].
Proof.
  exact (proj1 (provider_clearLogs_empties_or_keeps
    (Provider.initial
       (run [EvInitDB; EvOpenSuccess]
            (fresh {| rows := [(1, draft 5 INFO "old" None [])]; keygen := 2 |}
                   0)))
    VNull eq_refl)).
Defined.

(** [X21] A logging call of the provider while the database cannot be
    opened, with the interceptors installed once: store and [logs] stay as
    they were, and the provider's report, made with [console.error], is
    printed and is itself captured as one new entry for [saveLog]. *)
Theorem provider_failure_report_is_captured (n : nat) (e : Provider.PEvent)
  (entry : LogDraft) (o : Outcome) (c : Provider.Ctx) :
  init_failed n (Provider.core c) ->
  console (Provider.core c) = installed_once ->
  Provider.entry_of e (now (Provider.core c)) = Some entry ->
  let text := "CRITICAL: Failed to persist log to IndexedDB"%string in
  let c' := Provider.prun
              [e; Provider.Resume (List.length (Provider.waiting c)) o] c in
  Provider.logs c' = Provider.logs c
  /\ idb (Provider.core c') = idb (Provider.core c)
  /\ Provider.waiting c' = Provider.waiting c
  /\ trace (Provider.core c')
     = trace (Provider.core c) ++ [Output ChError [VStr text; open_failure]]
  /\ pending (Provider.core c')
     = pending (Provider.core c)
       ++ [TsaveLog (draft (now (Provider.core c)) ERROR text None
                           [open_failure])].
Proof.
  intros F K E text c'. unfold c'. subst text.
  cbn [Provider.prun fold_left].
  rewrite (logging_call_waits e entry c E).
  destruct c as [s lg ld w]. cbn [Provider.core Provider.waiting Provider.logs] in *.
  rewrite (wait_open _ s lg ld w (or_intror (failed_is_promised _ _ F))).
  rewrite pstep_resume_last. cbn [Provider.resume Provider.core].
  rewrite (getDB_resume_failed _ _ F).
  cbn [addLogEntry]. ctx_simpl. cbn [db_onerror].
  rewrite (console_call_installed_once ChError
             [VStr "CRITICAL: Failed to persist log to IndexedDB"; open_failure]
             (draft (now s) ERROR "CRITICAL: Failed to persist log to IndexedDB"
                    None [open_failure]) s K
             (or_intror (failed_is_promised _ _ F)) eq_refl).
  repeat split.
Qed.

Lemma provider_failure_report_is_captured_witness :
  let s := run [EvInstall; EvInitDB; EvOpenError VNull; EvRun 0 Commit]
               (fresh IDB.empty 0) in
  let c' := Provider.prun [Provider.LogInfo "hello" None;
                           Provider.Resume 0 Commit] (Provider.initial s) in
  pending (Provider.core c')
  = [TsaveLog (draft 0 ERROR "CRITICAL: Failed to persist log to IndexedDB"
                     None [open_failure])].
Proof.
  pose proof (provider_failure_report_is_captured 1
    (Provider.LogInfo "hello" None)
    (persistLog_entry 0 INFO "hello" None None) Commit
    (Provider.initial
       (run [EvInstall; EvInitDB; EvOpenError VNull; EvRun 0 Commit]
            (fresh IDB.empty 0)))
    (conj eq_refl (conj eq_refl eq_refl)) eq_refl eq_refl)
    as (_ & _ & _ & _ & H).
  exact H.
Defined.

(** ** Inserts that keep failing *)

Lemma failed_insert_is_reported_by_an_insert q d r e s :
  dbInstance s = true ->
  console s = installed_once ->
  pending s = q ++ TsaveLog d :: r ->
  let s1 := step (EvRun (List.length q) (Abort e)) s in
  dbInstance s1 = true
  /\ console s1 = installed_once
  /\ pending s1
     = q ++ r ++ [TsaveLog (draft (now s) ERROR "Database error:" None [e])]
  /\ trace s1
     = trace s ++ [Output ChError [VStr "Failed to save log to DB"; e];
                   Output ChError [VStr "Database error:"; e]]
  /\ idb s1 = idb s.
Proof.
  intros D K P s1.
  assert (E : s1 = console_call ChError [VStr "Database error:"; e]
                     (emit (Output ChError [VStr "Failed to save log to DB"; e])
                           (set_pending (q ++ r) s))).
  { unfold s1. cbn [step]. unfold run_task.
    rewrite P, nth_error_middle, remove_nth_middle.
    rewrite (getDB_resume_open _ D).
    cbn [resume addLogEntry IDB.add saveLog_resume db_onerror].
    cbn [console set_pending set_idb]. rewrite K. reflexivity. }
  rewrite E.
  rewrite (console_call_installed_once ChError [VStr "Database error:"; e]
             (draft (now s) ERROR "Database error:" None [e]))
    by (try exact K; try reflexivity; left; exact D).
  cbn. rewrite <- !app_assoc. repeat split; assumption.
Qed.

Lemma failed_inserts_go_round q e k :
  forall s d,
    dbInstance s = true ->
    console s = installed_once ->
    pending s = q ++ [TsaveLog d] ->
    let sk := run (repeat (EvRun (List.length q) (Abort e)) k) s in
    (exists d', pending sk = q ++ [TsaveLog d'])
    /\ trace sk
       = trace s
         ++ List.concat (repeat [Output ChError [VStr "Failed to save log to DB"; e];
                            Output ChError [VStr "Database error:"; e]] k)
    /\ idb sk = idb s.
Proof.
  induction k as [|k IH]; intros s d D K P.
  - cbn [repeat run fold_left List.concat]. rewrite app_nil_r.
    split; [exists d; exact P | split; reflexivity].
  - change (run (repeat (EvRun (List.length q) (Abort e)) (S k)) s)
      with (run (repeat (EvRun (List.length q) (Abort e)) k)
                (step (EvRun (List.length q) (Abort e)) s)).
    destruct (failed_insert_is_reported_by_an_insert q d [] e s D K P)
      as (D1 & K1 & P1 & T1 & I1).
    destruct (IH _ _ D1 K1 P1) as (Hp & Ht & Hd).
    split; [exact Hp | split].
    + rewrite Ht, T1. cbn [repeat List.concat]. now rewrite <- !app_assoc.
    + now rewrite Hd.
Qed.

(** [X22] With the interceptors installed once and the store open, an
    insert of [saveLog] that fails is reported twice: by [saveLog] on the
    original error channel, and by [dbInstance.onerror] with
    [console.error], which is captured and becomes the next insert.  While
    inserts keep failing, one captured console call therefore never comes
    to rest: after any number of failed inserts one more is waiting, two
    more lines have been printed for each, and nothing has been stored. *)
Theorem failing_inserts_keep_reporting (k : nat) (c : Chan)
  (args : list Value) (d : LogDraft) (e : Value) (s : State) :
  dbInstance s = true ->
  console s = installed_once ->
  intercepted c args (now s) = Some d ->
  let m := List.length (pending s) in
  let sk := run (EvConsole c args :: repeat (EvRun m (Abort e)) k) s in
  (exists d', pending sk = pending s ++ [TsaveLog d'])
  /\ trace sk
     = trace s ++ Output c args
       :: List.concat (repeat [Output ChError [VStr "Failed to save log to DB"; e];
                          Output ChError [VStr "Database error:"; e]] k)
  /\ idb sk = idb s.
Proof.
  intros D K I m sk.
  pose proof (console_call_installed_once c args d s K (or_introl D) I) as E.
  change sk with (run (repeat (EvRun (List.length (pending s)) (Abort e)) k)
                      (console_call c args s)).
  rewrite E.
  destruct (failed_inserts_go_round (pending s) e k
              (set_pending (pending s ++ [TsaveLog d]) (emit (Output c args) s))
              d D K eq_refl) as (Hp & Ht & Hd).
  split; [exact Hp | split].
  - rewrite Ht. cbn [trace set_pending emit]. now rewrite <- app_assoc.
  - exact Hd.
Qed.

Lemma failing_inserts_keep_reporting_witness :
  let s := run [EvInstall; EvInitDB; EvOpenSuccess] (fresh IDB.empty 0) in
  idb (run (EvConsole ChLog [VStr "x"] :: repeat (EvRun 0 (Abort VNull)) 4) s)
  = IDB.empty.
Proof.
  exact (proj2 (proj2 (failing_inserts_keep_reporting 4 ChLog [VStr "x"]
    (draft 0 INFO "x" None []) VNull
    (run [EvInstall; EvInitDB; EvOpenSuccess] (fresh IDB.empty 0))
    eq_refl eq_refl eq_refl))).
Defined.
